(** * chatwisp-pdf: the share-link validator and the PDF conversion pipeline

    A shallow embedding of [src/utils/validation.ts] and of the current
    revision of [src/utils/pdfUtils.ts] (the one that imports
    [extractShareId], tries several CORS proxies and has
    [fallbackPdfGeneration]).

    Conventions of the embedding.
    - A JavaScript string is a [string]; the code units that matter here
      (URL syntax, hexadecimal digits, markup delimiters) are ASCII.
    - A JavaScript completion is [completion A]: a value, or a thrown
      [JsError] carrying its message.
    - [new URL(..)] is platform code: the validator is parameterised by the
      parser, so every universal statement holds for every parser.
    - Effects (network requests, the document body, console output, file
      downloads, pending timers) are threaded through [World] by the monad
      [M]; what the platform answers is read from [Env].
    - JavaScript numbers in the pagination are rationals; the only inexact
      operation of the source is the single division, and every later
      operation (subtracting 297) is exact on the values it meets. *)

From Stdlib Require Import String Ascii List Bool Arith ZArith QArith Qround Lia Lqa.
From Stdlib Require Import DecimalString.
From Equations Require Import Equations.
Import ListNotations.

Local Close Scope Q_scope.
Local Open Scope nat_scope.
Local Open Scope list_scope.
Local Open Scope string_scope.

(** ** JavaScript strings *)

Module JsString.

(** The double-quote character, for markup attributes. *)
Definition dq : string := String (ascii_of_nat 34) EmptyString.

(** [s.startsWith(p)]. *)
Definition startsWith (s p : string) : bool := String.prefix p s.

(** [s.includes(p)]: [p] occurs somewhere in [s]. *)
Fixpoint includes (s p : string) : bool :=
  String.prefix p s ||
  match s with
  | EmptyString => false
  | String _ t => includes t p
  end.

(** Character-wise reversal, used to flush an accumulator. *)
Fixpoint rev_append (acc s : string) : string :=
  match acc with
  | EmptyString => s
  | String c t => rev_append t (String c s)
  end.

(** [s.split(sep)] for a non-empty separator. [skip] counts the characters
    of a separator occurrence still to be dropped, [cur] is the current
    piece, most recent character first. *)
Fixpoint split_aux (sep s : string) (skip : nat) (cur : string) : list string :=
  match s with
  | EmptyString => [rev_append cur EmptyString]
  | String c t =>
      match skip with
      | S k => split_aux sep t k cur
      | O =>
          if String.prefix sep s
          then rev_append cur EmptyString
                 :: split_aux sep t (String.length sep - 1) EmptyString
          else split_aux sep t 0 (String c cur)
      end
  end.

Definition split (s sep : string) : list string := split_aux sep s 0 EmptyString.

(** Truthiness of a string: only the empty string is falsy. *)
Definition truthy (s : string) : bool :=
  match s with EmptyString => false | _ => true end.

(** Drops [p] from the front of [s] when it is there. *)
Fixpoint strip (p s : string) : option string :=
  match p, s with
  | EmptyString, _ => Some s
  | String a p', String b s' => if Ascii.eqb a b then strip p' s' else None
  | String _ _, EmptyString => None
  end.

(** ASCII lower-casing, for case-insensitive matching. *)
Definition lower (c : ascii) : ascii :=
  let n := nat_of_ascii c in
  if ((65 <=? n) && (n <=? 90))%nat then ascii_of_nat (n + 32) else c.

(** [String(n)] for a non-negative integer. *)
Definition of_nat (n : nat) : string := NilZero.string_of_uint (Nat.to_uint n).

End JsString.

(** ** Completions *)

Record JsError := Error { message : string }.

Inductive completion (A : Type) :=
| Normal (a : A)
| Throws (e : JsError).
Arguments Normal {A} a.
Arguments Throws {A} e.

Definition cbind {A B} (c : completion A) (k : A -> completion B) : completion B :=
  match c with
  | Normal a => k a
  | Throws e => Throws e
  end.

(** [try { c } catch (error) { h error }]. *)
Definition ctry {A} (c : completion A) (h : JsError -> completion A) : completion A :=
  match c with
  | Normal a => Normal a
  | Throws e => h e
  end.

(** ** Regular expressions of the source *)

Module Regex.

(** [[0-9a-f]] under the [i] flag. *)
Definition hex (c : ascii) : bool :=
  let n := nat_of_ascii (JsString.lower c) in
  ((48 <=? n)%nat && (n <=? 57)%nat) || ((97 <=? n)%nat && (n <=? 102)%nat).

(** The atoms of the share-id pattern: [[0-9a-f]{n}] and a literal. *)
Inductive atom :=
| Hex (n : nat)
| Lit (c : ascii).

(** Consumes exactly [n] hexadecimal digits. *)
Fixpoint eat_hex (n : nat) (s : string) : option string :=
  match n with
  | O => Some s
  | S k =>
      match s with
      | String c t => if hex c then eat_hex k t else None
      | EmptyString => None
      end
  end.

(** [/^ atoms $/i.test(s)]: every atom in turn, then the end of input. *)
Fixpoint test (p : list atom) (s : string) : bool :=
  match p with
  | [] => match s with EmptyString => true | _ => false end
  | Hex n :: p' =>
      match eat_hex n s with
      | Some rest => test p' rest
      | None => false
      end
  | Lit c :: p' =>
      match s with
      | String d t => Ascii.eqb (JsString.lower c) (JsString.lower d) && test p' t
      | EmptyString => false
      end
  end.

(** [/^[0-9a-f]{8}-[0-9a-f]{4}-[0-9a-f]{4}-[0-9a-f]{4}-[0-9a-f]{12}$/i] *)
Definition uuidRegex : list atom :=
  [Hex 8; Lit "-"%char; Hex 4; Lit "-"%char; Hex 4; Lit "-"%char;
   Hex 4; Lit "-"%char; Hex 12].

End Regex.

(** ** src/utils/validation.ts *)

(** The two components of a parsed URL that the validator reads. *)
Record URL := { hostname : string; pathname : string }.

Section Validation.

(** [new URL(url)]: [None] when the platform parser throws [TypeError]. *)
Variable parse : string -> option URL.

Definition newURL (url : string) : completion URL :=
  match parse url with
  | Some u => Normal u
  | None => Throws (Error "Invalid URL")
  end.

(** [urlObj.pathname.split('/share/')[1]]; [None] is [undefined]. *)
Definition shareIdOf (urlObj : URL) : option string :=
  nth_error (JsString.split (pathname urlObj) "/share/") 1.

Definition validateClaudeURL (url : string) : completion bool :=
  if negb (JsString.truthy url) then Normal false
  else
    ctry
      (cbind (newURL url) (fun urlObj =>
         if negb (JsString.includes (hostname urlObj) "claude.ai") then Normal false
         else if negb (JsString.startsWith (pathname urlObj) "/share/") then Normal false
         else
           match shareIdOf urlObj with
           | None => Normal false
           | Some shareId =>
               if negb (JsString.truthy shareId)
                  || negb (Regex.test Regex.uuidRegex shareId)
               then Normal false
               else Normal true
           end))
      (fun _ => Normal false).

(** [null] and [undefined] are both [None]. *)
Definition extractShareId (url : string) : completion (option string) :=
  cbind (validateClaudeURL url) (fun valid =>
    if negb valid then Normal None
    else
      ctry
        (cbind (newURL url) (fun urlObj => Normal (shareIdOf urlObj)))
        (fun _ => Normal None)).

End Validation.

(** ** A reference URL parser for plain http(s) links

    The URL Standard's parser restricted to inputs on which it does no
    rewriting: [http://] or [https://], a host of lower-case letters, digits,
    dots and hyphens, no port, and a path of letters, digits, [/], [-] and
    [_]; query and fragment are cut off. Everything else is treated as a
    parse failure. It instantiates the [parse] parameter in the examples. *)

Module PlainURL.

Definition host_char (c : ascii) : bool :=
  let n := nat_of_ascii c in
  ((97 <=? n)%nat && (n <=? 122)%nat) || ((48 <=? n)%nat && (n <=? 57)%nat)
  || Ascii.eqb c "."%char || Ascii.eqb c "-"%char.

Definition path_char (c : ascii) : bool :=
  let n := nat_of_ascii (JsString.lower c) in
  ((97 <=? n)%nat && (n <=? 122)%nat) || ((48 <=? n)%nat && (n <=? 57)%nat)
  || Ascii.eqb c "/"%char || Ascii.eqb c "-"%char || Ascii.eqb c "_"%char.

(** The longest prefix of [s] made of [ok] characters, and the rest. *)
Fixpoint span (ok : ascii -> bool) (s : string) : string * string :=
  match s with
  | EmptyString => (EmptyString, EmptyString)
  | String c t =>
      if ok c then let (a, b) := span ok t in (String c a, b)
      else (EmptyString, s)
  end.

Definition ends_path (rest : string) : bool :=
  match rest with
  | EmptyString => true
  | String c _ => Ascii.eqb c "?"%char || Ascii.eqb c "#"%char
  end.

Definition after_scheme (s : string) : option string :=
  match JsString.strip "https://" s with
  | Some r => Some r
  | None => JsString.strip "http://" s
  end.

Definition parse (s : string) : option URL :=
  match after_scheme s with
  | None => None
  | Some r =>
      let (host, r1) := span host_char r in
      let (path, r2) := span path_char r1 in
      if JsString.truthy host && ends_path r2
         && (negb (JsString.truthy path) || JsString.startsWith path "/")
      then Some {| hostname := host;
                   pathname := if JsString.truthy path then path else "/" |}
      else None
  end.

End PlainURL.

(** ** The platform seen by src/utils/pdfUtils.ts *)

(** A fetch request: the address and the headers of the init object. *)
Record Request := { target : string; headers : list (string * string) }.

(** A fetch response; [text] is the outcome of [await response.text()]. *)
Record Response := {
  ok : bool;
  status : nat;
  statusText : string;
  text : completion string
}.

(** The canvas html2canvas resolves with: its pixel size, positive as the
    data model requires of a captured image, and the data URL that
    [canvas.toDataURL('image/jpeg', 0.95)] returns. *)
Record Canvas := { width : positive; height : positive; toDataURL : string }.

(** How loading the offscreen iframe ends: [onload] fires before the
    ten-second timer, the timer fires first, [iframe.contentWindow] is
    missing, or writing the document throws. *)
Inductive IframeLoad :=
| Loaded
| TimedOut
| NoContentWindow
| WriteThrows (e : JsError).

(** The answers of the platform during one conversion. *)
Record Env := {
  fetch_answer : Request -> completion Response;
  iframe_load : string -> IframeLoad;
  (** whether [contentWindow?.document.body || querySelector(..)] is truthy *)
  iframe_element : string -> bool;
  html2canvas_answer : string -> completion Canvas
}.

(** ** jsPDF documents *)

Module JsPDF.

(** What is drawn on a page. Lengths are in the document unit. *)
Inductive op :=
| Text (size : nat) (txt : string) (x y : Z) (align : option string)
| Image (data format : string) (x y w h : Q).

(** A document always has a current page, the last one; [earlier] holds the
    pages before it, first page first. *)
Record doc := {
  earlier : list (list op);
  current : list op;
  fontSize : nat
}.

Definition pages (d : doc) : list (list op) := earlier d ++ [current d].

(** [new jsPDF(..)]: one empty page, font size 16. *)
Definition new : doc := {| earlier := []; current := []; fontSize := 16 |}.

Definition setFontSize (n : nat) (d : doc) : doc :=
  {| earlier := earlier d; current := current d; fontSize := n |}.

Definition draw (o : op) (d : doc) : doc :=
  {| earlier := earlier d; current := current d ++ [o]; fontSize := fontSize d |}.

Definition text (txt : string) (x y : Z) (align : option string) (d : doc) : doc :=
  draw (Text (fontSize d) txt x y align) d.

Definition addImage (data format : string) (x y w h : Q) (d : doc) : doc :=
  draw (Image data format x y w h) d.

Definition addPage (d : doc) : doc :=
  {| earlier := earlier d ++ [current d]; current := []; fontSize := fontSize d |}.

End JsPDF.

(** ** The world and the monad of effects *)

Inductive Event :=
| Fetched (r : Request)
| Warned (msg : string) (e : JsError)
| Logged (msg : string) (e : JsError)
| Saved (filename : string) (d : JsPDF.doc).

(** [body]: the iframes attached to [document.body]; [fresh]: the next node
    identity; [timers]: the iframes whose ten-second timeout is still
    pending; [events]: what happened so far, oldest first. *)
Record World := {
  body : list nat;
  fresh : nat;
  timers : list nat;
  events : list Event
}.

Definition M (A : Type) : Type := World -> completion A * World.

Definition ret {A} (a : A) : M A := fun w => (Normal a, w).

Definition throw {A} (e : JsError) : M A := fun w => (Throws e, w).

Definition bind {A B} (m : M A) (k : A -> M B) : M B :=
  fun w =>
    match m w with
    | (Normal a, w') => k a w'
    | (Throws e, w') => (Throws e, w')
    end.

(** [try { m } catch (error) { h error }] *)
Definition try_catch {A} (m : M A) (h : JsError -> M A) : M A :=
  fun w =>
    match m w with
    | (Normal a, w') => (Normal a, w')
    | (Throws e, w') => h e w'
    end.

Definition lift {A} (c : completion A) : M A := fun w => (c, w).

Declare Scope js_scope.
Delimit Scope js_scope with js.
Notation "x <- m ;; k" := (bind m (fun x => k))
  (at level 61, m at next level, right associativity) : js_scope.
Notation "m ;; k" := (bind m (fun _ => k))
  (at level 61, right associativity) : js_scope.

Definition emit (e : Event) : M unit :=
  fun w => (Normal tt,
            {| body := body w; fresh := fresh w; timers := timers w;
               events := events w ++ [e] |}).

(** [await fetch(target, { headers })] *)
Definition fetch (env : Env) (r : Request) : M Response :=
  fun w => (fetch_answer env r,
            {| body := body w; fresh := fresh w; timers := timers w;
               events := events w ++ [Fetched r] |}).

Definition console_warn (msg : string) (e : JsError) : M unit := emit (Warned msg e).
Definition console_error (msg : string) (e : JsError) : M unit := emit (Logged msg e).

(** [pdf.save(filename)] offers the document for download. *)
Definition save (filename : string) (d : JsPDF.doc) : M unit := emit (Saved filename d).

(** [document.createElement('iframe')] *)
Definition createElement : M nat :=
  fun w => (Normal (fresh w),
            {| body := body w; fresh := S (fresh w); timers := timers w;
               events := events w |}).

(** [document.body.appendChild(node)] *)
Definition appendChild (node : nat) : M unit :=
  fun w => (Normal tt,
            {| body := body w ++ [node]; fresh := fresh w; timers := timers w;
               events := events w |}).

Definition without (node : nat) (l : list nat) : list nat :=
  filter (fun n => negb (Nat.eqb n node)) l.

(** [document.body.removeChild(node)] throws when [node] is not a child. *)
Definition removeChild (node : nat) : M unit :=
  fun w =>
    if existsb (Nat.eqb node) (body w)
    then (Normal tt,
          {| body := without node (body w); fresh := fresh w; timers := timers w;
             events := events w |})
    else (Throws (Error "The node to be removed is not a child of this node."), w).

(** [setTimeout(.., 10000)] and [clearTimeout] for the timer of [node]. *)
Definition setTimer (node : nat) : M unit :=
  fun w => (Normal tt,
            {| body := body w; fresh := fresh w; timers := timers w ++ [node];
               events := events w |}).

Definition clearTimer (node : nat) : M unit :=
  fun w => (Normal tt,
            {| body := body w; fresh := fresh w; timers := without node (timers w);
               events := events w |}).

(** The timer callback body after its [reject]:
    [document.body.removeChild(iframe)]; an exception there is lost. *)
Definition timerFires (node : nat) : M unit :=
  bind (clearTimer node) (fun _ => try_catch (removeChild node) (fun _ => ret tt)).

(** The event loop later runs every callback still pending. *)
Definition settle (w : World) : World :=
  fold_left (fun w' node => snd (timerFires node w')) (timers w) w.

(** The files offered for download, the network requests issued and the
    messages given to [console.error], each in order. *)
Definition downloadsOf (evs : list Event) : list (string * JsPDF.doc) :=
  flat_map (fun e => match e with Saved f d => [(f, d)] | _ => [] end) evs.

Definition requestsOf (evs : list Event) : list Request :=
  flat_map (fun e => match e with Fetched r => [r] | _ => [] end) evs.

Definition errorsOf (evs : list Event) : list string :=
  flat_map (fun e => match e with Logged m _ => [m] | _ => [] end) evs.

Definition downloads (w : World) : list (string * JsPDF.doc) := downloadsOf (events w).
Definition requests (w : World) : list Request := requestsOf (events w).
Definition errorLog (w : World) : list string := errorsOf (events w).

(** The world [w] after the further events [evs] and nothing else. *)
Definition after (w : World) (evs : list Event) : World :=
  {| body := body w; fresh := fresh w; timers := timers w;
     events := events w ++ evs |}.

(** ** src/utils/pdfUtils.ts: processHtml *)

Module MainRegex.

(** A literal under the [i] flag: the rest of [s] after it. *)
Fixpoint eat_lit (lit s : string) : option string :=
  match lit with
  | EmptyString => Some s
  | String a lit' =>
      match s with
      | String b t =>
          if Ascii.eqb (JsString.lower a) (JsString.lower b) then eat_lit lit' t else None
      | EmptyString => None
      end
  end.

(** [[^>]*>]: the greedy run cannot cross a [>], so the only way to match is
    up to the first [>]; the rest of [s] after it. *)
Fixpoint eat_tag (s : string) : option string :=
  match s with
  | EmptyString => None
  | String c t => if Ascii.eqb c ">"%char then Some t else eat_tag t
  end.

(** [([\s\S]*?)lit]: the shortest capture after which [lit] matches. *)
Fixpoint lazy_until (lit s : string) : option string :=
  match eat_lit lit s with
  | Some _ => Some EmptyString
  | None =>
      match s with
      | EmptyString => None
      | String c t => option_map (String c) (lazy_until lit t)
      end
  end.

(** [/<main[^>]*>([\s\S]*?)<\/main>/i] anchored at the start of [s]:
    capture group 1. *)
Definition match_at (s : string) : option string :=
  match eat_lit "<main" s with
  | None => None
  | Some r =>
      match eat_tag r with
      | None => None
      | Some r' => lazy_until "</main>" r'
      end
  end.

(** [html.match(..)]: the leftmost start position that matches; the result
    is [conversationMatch[1]], [None] when [conversationMatch] is [null]. *)
Fixpoint search (html : string) : option string :=
  match match_at html with
  | Some g => Some g
  | None =>
      match html with
      | EmptyString => None
      | String _ t => search t
      end
  end.

End MainRegex.

(** The document shell around an extracted [<main>] region: the text of the
    template literal before and after [${conversationMatch[1]}]. *)
Definition mainShellHead : string :=
  "
      <!DOCTYPE html>
      <html>
      <head>
        <meta charset=" ++ JsString.dq ++ "UTF-8" ++ JsString.dq ++ ">
        <style>
          body { 
            font-family: Arial, sans-serif; 
            margin: 20px;
            background: white;
            color: black;
            padding: 20px;
          }
          .message { 
            margin-bottom: 20px; 
            padding: 15px; 
            border-radius: 8px;
          }
          .human-message, div[data-message-author-role=" ++ JsString.dq ++ "user" ++ JsString.dq ++ "] {
            background-color: #f0f0f0;
            margin: 15px 0;
            border-left: 4px solid #888;
          }
          .ai-message, div[data-message-author-role=" ++ JsString.dq ++ "assistant" ++ JsString.dq ++ "] {
            background-color: #e6f7ff;
            margin: 15px 0;
            border-left: 4px solid #0066cc;
          }
          .message-header {
            font-weight: bold;
            margin-bottom: 10px;
          }
          img, svg {
            max-width: 100%;
          }
          pre {
            background-color: #f5f5f5;
            padding: 10px;
            border-radius: 4px;
            overflow-x: auto;
            font-size: 14px;
          }
          code {
            font-family: monospace;
          }
          h1, h2, h3 {
            color: #333;
          }
        </style>
      </head>
      <body>
        <div class=" ++ JsString.dq ++ "conversation-container" ++ JsString.dq ++ ">
          ".

Definition mainShellTail : string :=
  "
        </div>
      </body>
      </html>
    ".

(** The shell of the degraded path, around [${html}]. *)
Definition rawShellHead : string :=
  "
    <!DOCTYPE html>
    <html>
    <head>
      <meta charset=" ++ JsString.dq ++ "UTF-8" ++ JsString.dq ++ ">
      <style>
        body { 
          font-family: Arial, sans-serif; 
          margin: 20px;
          background: white;
          color: black;
        }
        div[data-message-author-role=" ++ JsString.dq ++ "user" ++ JsString.dq ++ "] {
          background-color: #f0f0f0;
          padding: 15px;
          margin: 15px 0;
          border-left: 4px solid #888;
        }
        div[data-message-author-role=" ++ JsString.dq ++ "assistant" ++ JsString.dq ++ "] {
          background-color: #e6f7ff;
          padding: 15px;
          margin: 15px 0;
          border-left: 4px solid #0066cc;
        }
      </style>
    </head>
    <body>
      ".

Definition rawShellTail : string :=
  "
    </body>
    </html>
  ".

Definition processHtml (html : string) : string :=
  match MainRegex.search html with
  | Some inner =>
      if JsString.truthy inner
      then mainShellHead ++ inner ++ mainShellTail
      else rawShellHead ++ html ++ rawShellTail
  | None => rawShellHead ++ html ++ rawShellTail
  end.

(** ** src/utils/pdfUtils.ts: the paginated document *)

Definition imgWidth : Q := 210.
Definition pageHeight : Q := 297.

(** [(canvas.height * imgWidth) / canvas.width] *)
Definition imgHeight (canvas : Canvas) : Q :=
  (inject_Z (Zpos (height canvas)) * imgWidth / inject_Z (Zpos (width canvas)))%Q.

(** One page height less leaves a strictly smaller number of whole pages:
    the loop terminates. *)
Lemma ceiling_decreases (x : Q) :
  (0 < x)%Q ->
  (Z.to_nat (Qceiling (x - pageHeight)) < Z.to_nat (Qceiling x))%nat.
Proof.
  intros H.
  assert (H1 : (0 < Qceiling x)%Z).
  { rewrite Zlt_Qlt. eapply Qlt_le_trans; [exact H | apply Qle_ceiling]. }
  assert (H2 : (Qceiling (x - pageHeight) <= Qceiling x - 297)%Z).
  { rewrite <- (Qceiling_Z (Qceiling x - 297)). apply Qceiling_resp_le.
    unfold pageHeight, Z.sub, Qminus. rewrite inject_Z_plus, inject_Z_opp.
    apply Qplus_le_l. apply Qle_ceiling. }
  lia.
Qed.

(** The [while (heightLeft > 0)] loop, from the values of [heightLeft],
    [pageCount] and [pdf] on entry; [position] is assigned from [pageCount]
    in every round. *)
Equations? morePages (canvas : Canvas) (heightLeft : Q) (pageCount : nat)
    (pdf : JsPDF.doc) : JsPDF.doc by wf (Z.to_nat (Qceiling heightLeft)) lt :=
  morePages canvas heightLeft pageCount pdf with Qlt_le_dec 0 heightLeft => {
    | left _ =>
        let position := (- pageHeight * inject_Z (Z.of_nat pageCount))%Q in
        morePages canvas (heightLeft - pageHeight)%Q (S pageCount)
          (JsPDF.addImage (toDataURL canvas) "JPEG" 0 position imgWidth (imgHeight canvas)
             (JsPDF.addPage pdf));
    | right _ => pdf }.
Proof.
  apply ceiling_decreases. assumption.
Qed.

(** From [new jsPDF] to the end of the loop. *)
Definition paginate (canvas : Canvas) : JsPDF.doc :=
  let pdf := JsPDF.new in
  let heightLeft := imgHeight canvas in
  let position := 0%Q in
  let pageCount := 0%nat in
  let pdf := JsPDF.addImage (toDataURL canvas) "JPEG" 0 position imgWidth
               (imgHeight canvas) pdf in
  let heightLeft := (heightLeft - pageHeight)%Q in
  let pageCount := S pageCount in
  morePages canvas heightLeft pageCount pdf.

(** The page expected at index [i]: the whole image, moved up by [i] page
    heights. *)
Definition pageAt (canvas : Canvas) (i : nat) : list JsPDF.op :=
  [JsPDF.Image (toDataURL canvas) "JPEG" 0 (- pageHeight * inject_Z (Z.of_nat i))
     imgWidth (imgHeight canvas)].

(** ** The first revision of the paginator

    The file also keeps the first revision of [convertClaudeToPdf]. Its
    pagination: the image on page 1; then, for an image taller than a page,
    [deletePage(1)] and a loop that moves [position] up before it adds each
    page. The current revision above replaced it. *)

Module FirstRevision.

(** [while (remainingHeight > 0)], over the pages added so far. *)
Equations? morePages (canvas : Canvas) (remainingHeight position : Q)
    (pages : list (list JsPDF.op)) : list (list JsPDF.op)
    by wf (Z.to_nat (Qceiling remainingHeight)) lt :=
  morePages canvas remainingHeight position pages with Qlt_le_dec 0 remainingHeight => {
    | left _ =>
        let position := (position - pageHeight)%Q in
        morePages canvas (remainingHeight - pageHeight)%Q position
          (pages ++ [[JsPDF.Image (toDataURL canvas) "PNG" 0 position imgWidth
                        (imgHeight canvas)]]);
    | right _ => pages }.
Proof.
  apply ceiling_decreases. assumption.
Qed.

Definition paginate (canvas : Canvas) : list (list JsPDF.op) :=
  if Qlt_le_dec 297 (imgHeight canvas)
  then morePages canvas (imgHeight canvas) 0 []
  else [[JsPDF.Image (toDataURL canvas) "PNG" 0 0 imgWidth (imgHeight canvas)]].

End FirstRevision.

(** ** src/utils/pdfUtils.ts: the pipeline *)

Section Pipeline.

(** [new URL(..)] and the answers of the platform. *)
Variable parse : string -> option URL.
Variable env : Env.

Local Open Scope js_scope.

Definition corsProxies : list string :=
  [ "https://corsproxy.io/?";
    "https://cors-anywhere.herokuapp.com/";
    "https://api.allorigins.win/raw?url=" ].

Definition proxyRequest (shareId proxy : string) : Request :=
  {| target := proxy ++ "https://claude.ai/share/" ++ shareId; headers := [] |}.

Definition directRequest (shareId : string) : Request :=
  {| target := "https://claude.ai/share/" ++ shareId;
     headers :=
       [ ("Accept", "text/html");
         ("User-Agent", "Mozilla/5.0 (Windows NT 10.0; Win64; x64) AppleWebKit/537.36") ] |}.

(** The [for (const proxy of corsProxies)] loop over the proxies still to be
    tried; the result is the pair of [html] and [success] after the loop. *)
Fixpoint tryProxies (shareId : string) (proxies : list string) : M (string * bool) :=
  match proxies with
  | [] => ret (EmptyString, false)
  | proxy :: rest =>
      got <- try_catch
               (response <- fetch env (proxyRequest shareId proxy) ;;
                if ok response
                then html <- lift (text response) ;; ret (Some html)
                else ret None)
               (fun e =>
                  console_warn ("Proxy " ++ proxy ++ " failed:") e ;; ret None) ;;
      match got with
      | Some html => ret (html, true)
      | None => tryProxies shareId rest
      end
  end.

Definition fetchFailure (response : Response) : JsError :=
  Error ("Failed to fetch content: " ++ JsString.of_nat (status response)
         ++ " " ++ statusText response).

Definition fetchUserMessage : string :=
  "Failed to fetch Claude conversation. Please make sure the share link is public and valid.".

Definition fetchClaudeContent (shareId : string) : M string :=
  try_catch
    (r <- tryProxies shareId corsProxies ;;
     let (html, success) := r in
     if negb success
     then
       response <- fetch env (directRequest shareId) ;;
       if negb (ok response) then throw (fetchFailure response)
       else lift (text response)
     else ret html)
    (fun error =>
       console_error "Error fetching Claude content:" error ;;
       throw (Error fetchUserMessage)).

Definition createTemporaryIframe (htmlContent : string) : M nat :=
  iframe <- createElement ;;
  appendChild iframe ;;
  setTimer iframe ;;
  match iframe_load env htmlContent with
  | Loaded => clearTimer iframe ;; ret iframe
  | TimedOut => timerFires iframe ;; throw (Error "Iframe loading timed out")
  | NoContentWindow => throw (Error "Could not access iframe content window")
  | WriteThrows e => throw e
  end.

(** [await html2canvas(element, {..})] on the document written to the iframe. *)
Definition html2canvas (processedHtml : string) : M Canvas :=
  lift (html2canvas_answer env processedHtml).

Definition pdfName (shareId : string) : string :=
  "claude-conversation-" ++ shareId ++ ".pdf".

Definition fallbackDocument (shareId : string) : JsPDF.doc :=
  let pdf := JsPDF.new in
  let pdf := JsPDF.setFontSize 16 pdf in
  let pdf := JsPDF.text "Claude Conversation" 105 20 (Some "center") pdf in
  let pdf := JsPDF.setFontSize 12 pdf in
  let pdf := JsPDF.text ("Share URL: https://claude.ai/share/" ++ shareId) 20 40 None pdf in
  let pdf := JsPDF.setFontSize 12 pdf in
  let pdf := JsPDF.text "The automatic PDF generation encountered technical difficulties."
               20 60 None pdf in
  let pdf := JsPDF.text
               "To save this conversation as PDF, please try one of these alternatives:"
               20 70 None pdf in
  let pdf := JsPDF.text
               "1. Open the share URL in your browser and use the browser's print function"
               20 85 None pdf in
  let pdf := JsPDF.text
               ("   (Select " ++ JsString.dq ++ "Save as PDF" ++ JsString.dq
                ++ " as the printer)")
               20 95 None pdf in
  let pdf := JsPDF.text "2. Try again later when the service might be more stable"
               20 110 None pdf in
  let pdf := JsPDF.text "3. Take screenshots of the conversation" 20 125 None pdf in
  pdf.

(** [if (!shareId)]: [null] and the empty string are falsy. *)
Definition usable (shareId : option string) : option string :=
  match shareId with
  | Some id => if JsString.truthy id then Some id else None
  | None => None
  end.

Definition fallbackPdfGeneration (url : string) : M unit :=
  shareId <- lift (extractShareId parse url) ;;
  match usable shareId with
  | None => throw (Error "Invalid Claude share URL")
  | Some shareId => save (pdfName shareId) (fallbackDocument shareId)
  end.

(** The body of the outer [try] of [convertClaudeToPdf]. *)
Definition renderAndSave (url : string) : M unit :=
  shareId <- lift (extractShareId parse url) ;;
  match usable shareId with
  | None => throw (Error "Invalid Claude share URL")
  | Some shareId =>
      htmlContent <- fetchClaudeContent shareId ;;
      let processedHtml := processHtml htmlContent in
      iframe <- createTemporaryIframe processedHtml ;;
      if negb (iframe_element env processedHtml)
      then throw (Error "Could not find content to convert")
      else
        canvas <- html2canvas processedHtml ;;
        let pdf := paginate canvas in
        save (pdfName shareId) pdf ;;
        removeChild iframe
  end.

Definition generateFailure : JsError :=
  Error "Failed to generate PDF. Please try again or use browser print function.".

Definition convertClaudeToPdf (url : string) : M unit :=
  try_catch (renderAndSave url)
    (fun error =>
       console_error "Error converting to PDF:" error ;;
       try_catch (fallbackPdfGeneration url)
         (fun fallbackError =>
            console_error "Fallback PDF generation also failed:" fallbackError ;;
            throw generateFailure)).

End Pipeline.

(** A world in which nothing has happened yet. *)
Definition idle : World := {| body := []; fresh := 0; timers := []; events := [] |}.

(** ** The fetch policy, in the words of the specification *)

(** The body a path delivers: the request resolves, the status is a success
    and the body can be read. *)
Definition delivered (env : Env) (r : Request) : option string :=
  match fetch_answer env r with
  | Normal response =>
      if ok response
      then match text response with
           | Normal html => Some html
           | Throws _ => None
           end
      else None
  | Throws _ => None
  end.

(** Try the paths in order and stop at the first that delivers: the paths
    tried, and the body if one delivered. *)
Fixpoint firstDelivery (env : Env) (paths : list Request) : list Request * option string :=
  match paths with
  | [] => ([], None)
  | r :: rest =>
      match delivered env r with
      | Some html => ([r], Some html)
      | None => let (tried, got) := firstDelivery env rest in (r :: tried, got)
      end
  end.

(** Proxies first; the direct request only when every proxy failed; the
    user-facing error only when the direct request failed too. *)
Definition fetchPolicy (env : Env) (shareId : string) : list Request * completion string :=
  match firstDelivery env (map (proxyRequest shareId) corsProxies) with
  | (tried, Some html) => (tried, Normal html)
  | (tried, None) =>
      match delivered env (directRequest shareId) with
      | Some html => ((tried ++ [directRequest shareId])%list, Normal html)
      | None => ((tried ++ [directRequest shareId])%list, Throws (Error fetchUserMessage))
      end
  end.

(** ** The outcomes of the rendering pipeline *)

(** The world after this conversion created its iframe (the node [fresh w])
    and appended it, and after the further events [evs]: [attached] tells
    whether the iframe is still a child of the body, [pending] whether its
    timeout is still to fire. *)
Definition withIframe (w : World) (attached pending : bool) (evs : list Event) : World :=
  let node := fresh w in
  {| body := if attached then body w ++ [node] else without node (body w ++ [node]);
     fresh := S node;
     timers := if pending then timers w ++ [node] else without node (timers w ++ [node]);
     events := events w ++ evs |}.

(** What [renderAndSave] comes to for the identifier [shareId], case by case
    on the answers of the platform; [evs] are the events of the fetch. *)
Definition renderOutcome (env : Env) (shareId : string) (w : World) (evs : list Event)
    : completion unit * World :=
  match snd (fetchPolicy env shareId) with
  | Throws e => (Throws e, after w evs)
  | Normal htmlContent =>
      let processedHtml := processHtml htmlContent in
      match iframe_load env processedHtml with
      | Loaded =>
          if iframe_element env processedHtml
          then match html2canvas_answer env processedHtml with
               | Normal canvas =>
                   (Normal tt,
                    withIframe w false false
                      (evs ++ [Saved (pdfName shareId) (paginate canvas)]))
               | Throws e => (Throws e, withIframe w true false evs)
               end
          else (Throws (Error "Could not find content to convert"),
                withIframe w true false evs)
      | TimedOut => (Throws (Error "Iframe loading timed out"), withIframe w false false evs)
      | NoContentWindow =>
          (Throws (Error "Could not access iframe content window"),
           withIframe w true true evs)
      | WriteThrows e => (Throws e, withIframe w true true evs)
      end
  end.

(** ** Sample inputs *)

Definition sampleId : string := "3fa85f64-5717-4562-b3fc-2c963f66afa6".
Definition sampleLink : string := "https://claude.ai/share/" ++ sampleId.

(** No network path answers; the iframe would load and the capture work. *)
Definition offline : Env :=
  {| fetch_answer := fun _ => Throws (Error "Failed to fetch");
     iframe_load := fun _ => Loaded;
     iframe_element := fun _ => true;
     html2canvas_answer :=
       fun _ => Normal {| width := 1500; height := 3000; toDataURL := "data:image/jpeg" |} |}.

(** Every request is answered with a page; the iframe loads; the capture
    resolves when [capture] is a canvas and rejects when it is an error. *)
Definition online (capture : completion Canvas) : Env :=
  {| fetch_answer :=
       fun _ => Normal {| ok := true; status := 200; statusText := "OK";
                          text := Normal "<html><main>Hello</main></html>" |};
     iframe_load := fun _ => Loaded;
     iframe_element := fun _ => true;
     html2canvas_answer := fun _ => capture |}.

(** ** What a styled shell is *)

(** The selectors of the two author roles, framed by both style sheets. *)
Definition authorRoleRules : list string :=
  [ "div[data-message-author-role=" ++ JsString.dq ++ "user" ++ JsString.dq ++ "]";
    "div[data-message-author-role=" ++ JsString.dq ++ "assistant" ++ JsString.dq ++ "]" ].

(** The rest of [s] after the first occurrence of [p]. *)
Fixpoint dropThrough (s p : string) : option string :=
  match JsString.strip p s with
  | Some rest => Some rest
  | None =>
      match s with
      | EmptyString => None
      | String _ t => dropThrough t p
      end
  end.

(** The [parts] occur in [s] one after the other. *)
Fixpoint inOrder (parts : list string) (s : string) : bool :=
  match parts with
  | [] => true
  | p :: rest =>
      match dropThrough s p with
      | Some r => inOrder rest r
      | None => false
      end
  end.

(** A well-formed shell: [head] opens the document, its head and a style
    sheet that holds the author-role rules, closes them and opens the body,
    in this order; [tail] closes the body and then the document. *)
Definition styledShell (head tail : string) : bool :=
  inOrder
    ([ "<!DOCTYPE html>"; "<html>"; "<head>"; "<style>" ] ++ authorRoleRules
     ++ [ "</style>"; "</head>"; "<body>" ]) head
  && inOrder [ "</body>"; "</html>" ] tail.

(** Equality of strings up to ASCII case. *)
Definition sameLetters (a b : string) : Prop :=
  map JsString.lower (list_ascii_of_string a) = map JsString.lower (list_ascii_of_string b).

(** [inner] is the content of a main region of [html]: it stands between an
    opening tag [<main ..>] and a closing tag [</main>], in any case. *)
Definition mainRegion (html inner : string) : Prop :=
  exists before opening attrs closing after,
    html = before ++ opening ++ attrs ++ ">" ++ inner ++ closing ++ after /\
    sameLetters opening "<main" /\
    sameLetters closing "</main>" /\
    JsString.includes attrs ">" = false.

(** ** The token shape, in the words of the specification *)

(** Five groups of hexadecimal digits of lengths 8, 4, 4, 4 and 12, joined
    by hyphens. *)
Definition hexes (n : nat) (s : string) : Prop :=
  String.length s = n /\
  forallb Regex.hex (list_ascii_of_string s) = true.

Definition uuid_shape (s : string) : Prop :=
  exists a b c d e,
    s = a ++ "-" ++ b ++ "-" ++ c ++ "-" ++ d ++ "-" ++ e /\
    hexes 8 a /\ hexes 4 b /\ hexes 4 c /\ hexes 4 d /\ hexes 12 e.

(** What it takes for the validator to answer [true] on [s]: the parser
    yields [u], and [u] passes the three checks with token [id]. *)
Definition accepted (parse : string -> option URL) (s : string) (u : URL) (id : string) : Prop :=
  s <> EmptyString /\ parse s = Some u /\
  JsString.includes (hostname u) "claude.ai" = true /\
  JsString.startsWith (pathname u) "/share/" = true /\
  shareIdOf u = Some id /\
  Regex.test Regex.uuidRegex id = true.

(** No [/] occurs in [s]. *)
Definition slashless (s : string) : Prop :=
  forallb (fun c => negb (Ascii.eqb c "/"%char)) (list_ascii_of_string s) = true.


(** ** src/utils/pdfUtils.ts: simulateConversion *)

Section Simulation.

Variable parse : string -> option URL.
Variable env : Env.

Local Open Scope js_scope.

(** The document built in the [catch] block of [simulateConversion]. *)
Definition simulationDocument (url : string) : JsPDF.doc :=
  let pdf := JsPDF.new in
  let pdf := JsPDF.setFontSize 22 pdf in
  let pdf := JsPDF.text "Claude Conversation PDF" 105 20 (Some "center") pdf in
  let pdf := JsPDF.setFontSize 14 pdf in
  let pdf := JsPDF.text ("From URL: " ++ url) 20 40 None pdf in
  let pdf := JsPDF.setFontSize 12 pdf in
  let pdf := JsPDF.text "PDF conversion encountered an error." 20 60 None pdf in
  let pdf := JsPDF.text
               "Please try opening the share URL directly and using your browser's"
               20 70 None pdf in
  let pdf := JsPDF.text "print function to save as PDF." 20 80 None pdf in
  pdf.

(** [extractShareId(url) || 'demo'] *)
Definition orDemo (shareId : option string) : string :=
  match usable shareId with
  | Some id => id
  | None => "demo"
  end.

Definition simulateConversion (url : string) : M unit :=
  try_catch (convertClaudeToPdf parse env url)
    (fun error =>
       console_error "Conversion failed, using simulation instead:" error ;;
       shareId <- lift (extractShareId parse url) ;;
       let shareId := orDemo shareId in
       let pdf := simulationDocument url in
       save (pdfName shareId) pdf).

End Simulation.

(** ** src/components/PdfConverter.tsx: handleConvert *)

Module PdfConverter.

Record Toast := { title : string; description : string; variant : option string }.

(** The component state set by [handleConvert], and the toasts shown so
    far, oldest first. *)
Record State := {
  error : option string;
  isConverting : bool;
  toasts : list Toast
}.

Definition setError (e : option string) (st : State) : State :=
  {| error := e; isConverting := isConverting st; toasts := toasts st |}.

Definition setIsConverting (b : bool) (st : State) : State :=
  {| error := error st; isConverting := b; toasts := toasts st |}.

Definition toast (t : Toast) (st : State) : State :=
  {| error := error st; isConverting := isConverting st; toasts := toasts st ++ [t] |}.

Definition invalidUrlMessage : string :=
  "Please enter a valid Claude.ai share URL (e.g., https://claude.ai/share/uuid-format)".

Definition startingToast : Toast :=
  {| title := "Starting conversion";
     description := "Processing your Claude conversation...";
     variant := None |}.

Definition completeToast : Toast :=
  {| title := "Conversion complete";
     description := "Your PDF has been downloaded.";
     variant := Some "default" |}.

(** Every thrown value of the embedding is an [Error], so the description
    is its message. *)
Definition failedToast (e : JsError) : Toast :=
  {| title := "Conversion failed";
     description := message e;
     variant := Some "destructive" |}.

Section Component.

Variable parse : string -> option URL.
Variable env : Env.

(** [handleConvert] for the value [url] of the input field: the completion
    of the returned promise, the state and the world afterwards. *)
Definition handleConvert (url : string) (st : State) (w : World)
    : completion unit * (State * World) :=
  let st := setError None st in
  match validateClaudeURL parse url with
  | Throws e => (Throws e, (st, w))
  | Normal false => (Normal tt, (setError (Some invalidUrlMessage) st, w))
  | Normal true =>
      let st := setIsConverting true st in
      let st := toast startingToast st in
      let '(st, w) :=
        match convertClaudeToPdf parse env url w with
        | (Normal _, w') => (toast completeToast st, w')
        | (Throws e, w') =>
            let w' := snd (console_error "Conversion error:" e w') in
            let st := toast (failedToast e) st in
            (setError (Some (message e)) st, w')
        end in
      (Normal tt, (setIsConverting false st, w))
  end.

End Component.

End PdfConverter.

(** ** The earlier PdfConverter component: handleConvert and the recent list *)

Module RecentConversions.

Inductive Toast :=
| ToastError (msg : string)
| ToastSuccess (msg : string).

Record State := {
  isConverting : bool;
  recentUrls : list string;
  toasts : list Toast
}.

Definition setIsConverting (b : bool) (st : State) : State :=
  {| isConverting := b; recentUrls := recentUrls st; toasts := toasts st |}.

(** [setRecentUrls(prev => f prev)] *)
Definition setRecentUrls (f : list string -> list string) (st : State) : State :=
  {| isConverting := isConverting st; recentUrls := f (recentUrls st); toasts := toasts st |}.

Definition toast (t : Toast) (st : State) : State :=
  {| isConverting := isConverting st; recentUrls := recentUrls st;
     toasts := toasts st ++ [t] |}.

(** [recentUrls.includes(url)] *)
Definition includes (l : list string) (url : string) : bool :=
  existsb (String.eqb url) l.

(** [[url, ...prev].slice(0, 5)] *)
Definition pushRecent (url : string) (prev : list string) : list string :=
  firstn 5 (url :: prev).

Section Component.

Variable parse : string -> option URL.

(** The imported [simulateConversion]. *)
Variable simulateConversion : string -> M unit.

(** [handleConvert] for the value [url] of the input field; [seen] is the
    [recentUrls] of the render that created the handler. *)
Definition handleConvert (url : string) (seen : list string) (st : State) (w : World)
    : completion unit * (State * World) :=
  match validateClaudeURL parse url with
  | Throws e => (Throws e, (st, w))
  | Normal false =>
      (Normal tt, (toast (ToastError "Please enter a valid Claude share URL") st, w))
  | Normal true =>
      let st := setIsConverting true st in
      let '(st, w) :=
        match simulateConversion url w with
        | (Normal _, w') =>
            let st := if negb (includes seen url)
                      then setRecentUrls (pushRecent url) st
                      else st in
            (toast (ToastSuccess "PDF generated successfully!") st, w')
        | (Throws e, w') =>
            let w' := snd (console_error "Conversion error:" e w') in
            (toast (ToastError "Failed to generate PDF. Please try again.") st, w')
        end in
      (Normal tt, (setIsConverting false st, w))
  end.

End Component.

End RecentConversions.

(** ** src/components/URLInput.tsx: the error state *)

Module URLInput.

Record State := { error : option string; isFocused : bool }.

Definition setError (e : option string) (st : State) : State :=
  {| error := e; isFocused := isFocused st |}.

Definition setIsFocused (b : bool) (st : State) : State :=
  {| error := error st; isFocused := b |}.

Definition errorMessage : string := "Please enter a valid Claude share URL".

(** Whether the error paragraph is rendered: [error && (..)]. *)
Definition shown (st : State) : bool :=
  match error st with
  | Some e => JsString.truthy e
  | None => false
  end.

Section Component.

Variable parse : string -> option URL.

(** [String.prototype.trim]. *)
Variable trim : string -> string.

Definition handleBlur (value : string) (st : State) : completion State :=
  let st := setIsFocused false st in
  if JsString.truthy (trim value)
  then cbind (validateClaudeURL parse value) (fun valid =>
         if negb valid then Normal (setError (Some errorMessage) st) else Normal st)
  else Normal st.

(** The effect that runs when [value] or [error] changed. *)
Definition valueEffect (value : string) (st : State) : completion State :=
  if String.eqb (trim value) EmptyString then Normal (setError None st)
  else if shown st
  then cbind (validateClaudeURL parse value) (fun valid =>
         if valid then Normal (setError None st) else Normal st)
  else Normal st.

End Component.

End URLInput.

(** ** Auxiliary notions for the properties *)

(** A page of the first revision: the whole image as PNG at offset [y]. *)
Definition shifted (canvas : Canvas) (y : Q) : list JsPDF.op :=
  [JsPDF.Image (toDataURL canvas) "PNG" 0 y imgWidth (imgHeight canvas)].

(** The error text of the input field is consistent with the value when it
    is shown only for a value that is not blank and that the validator
    refuses. *)
Definition consistent (parse : string -> option URL) (trim : string -> string)
    (value : string) (st : URLInput.State) : Prop :=
  URLInput.shown st = true ->
  JsString.truthy (trim value) = true /\ validateClaudeURL parse value = Normal false.


(** * Part II: properties *)

(** * Properties of the link validator *)

Module ValidationFacts.

Lemma append_nil_r (s : string) : s ++ EmptyString = s.
Proof. induction s; simpl; congruence. Qed.

Lemma eat_hex_spec n : forall s rest,
  Regex.eat_hex n s = Some rest <-> exists a, s = a ++ rest /\ hexes n a.
Proof.
  induction n as [|n IH]; intros s rest; simpl.
  - split.
    + intros [= <-]. exists EmptyString. repeat split.
    + intros (a & -> & Hl & _). destruct a; [reflexivity | discriminate].
  - destruct s as [|c t].
    + split; [discriminate|].
      intros (a & Hs & Hl & _). destruct a; simpl in *; discriminate.
    + destruct (Regex.hex c) eqn:Hc.
      * rewrite IH. split.
        -- intros (a & -> & Hl & Hh). exists (String c a). simpl.
           unfold hexes; simpl. rewrite Hc, Hh. repeat split; congruence.
        -- intros (a & Hs & Hl & Hh). destruct a as [|c' a]; [discriminate|].
           simpl in *. injection Hs as -> ->. injection Hl as Hl.
           apply andb_prop in Hh as [_ Hh]. exists a. repeat split; assumption.
      * split; [discriminate|].
        intros (a & Hs & Hl & Hh). destruct a as [|c' a]; [discriminate|].
        simpl in *. injection Hs as -> ->. rewrite Hc in Hh. discriminate.
Qed.

Lemma test_hex n p a rest :
  hexes n a -> Regex.test (Regex.Hex n :: p) (a ++ rest) = Regex.test p rest.
Proof.
  intros Ha. cbn [Regex.test].
  assert (E : Regex.eat_hex n (a ++ rest) = Some rest) by (apply eat_hex_spec; eauto).
  rewrite E. reflexivity.
Qed.

Lemma test_dash p rest :
  Regex.test (Regex.Lit "-"%char :: p) ("-" ++ rest) = Regex.test p rest.
Proof. reflexivity. Qed.

(** The regular expression of the source accepts exactly the token shape. *)
Lemma uuidRegex_shape s : Regex.test Regex.uuidRegex s = true <-> uuid_shape s.
Proof.
  unfold Regex.uuidRegex, uuid_shape. split.
  - cbn [Regex.test]. intros H.
    destruct (Regex.eat_hex 8 s) as [r1|] eqn:E1; [|discriminate].
    destruct r1 as [|h1 r1]; [discriminate|].
    apply andb_prop in H as [H1 H].
    destruct (Regex.eat_hex 4 r1) as [r2|] eqn:E2; [|discriminate].
    destruct r2 as [|h2 r2]; [discriminate|].
    apply andb_prop in H as [H2 H].
    destruct (Regex.eat_hex 4 r2) as [r3|] eqn:E3; [|discriminate].
    destruct r3 as [|h3 r3]; [discriminate|].
    apply andb_prop in H as [H3 H].
    destruct (Regex.eat_hex 4 r3) as [r4|] eqn:E4; [|discriminate].
    destruct r4 as [|h4 r4]; [discriminate|].
    apply andb_prop in H as [H4 H].
    destruct (Regex.eat_hex 12 r4) as [r5|] eqn:E5; [|discriminate].
    destruct r5; [|discriminate].
    apply Ascii.eqb_eq in H1, H2, H3, H4.
    assert (Hd : forall c, JsString.lower "-" = JsString.lower c -> c = "-"%char).
    { intros c.
      destruct c as [[] [] [] [] [] [] [] []]; vm_compute; intros E;
        first [reflexivity | discriminate E]. }
    apply Hd in H1, H2, H3, H4. subst.
    apply eat_hex_spec in E1 as (a & -> & Ha).
    apply eat_hex_spec in E2 as (b & -> & Hb).
    apply eat_hex_spec in E3 as (c & -> & Hc).
    apply eat_hex_spec in E4 as (d & -> & Hd').
    apply eat_hex_spec in E5 as (e & -> & He).
    exists a, b, c, d, e. rewrite append_nil_r.
    repeat split; try assumption; apply Ha || apply Hb || apply Hc || apply Hd' || apply He.
  - intros (a & b & c & d & e & -> & Ha & Hb & Hc & Hd & He).
    rewrite (test_hex _ _ _ _ Ha), test_dash, (test_hex _ _ _ _ Hb), test_dash,
      (test_hex _ _ _ _ Hc), test_dash, (test_hex _ _ _ _ Hd), test_dash.
    rewrite <- (append_nil_r e), (test_hex _ _ _ _ He). reflexivity.
Qed.

Section AnyParser.

Variable parse : string -> option URL.

Lemma validateClaudeURL_total s : exists b, validateClaudeURL parse s = Normal b.
Proof.
  unfold validateClaudeURL, newURL.
  destruct (JsString.truthy s); cbn [negb]; [|eauto].
  destruct (parse s) as [u|]; cbn [cbind ctry]; [|eauto].
  destruct (JsString.includes _ _); cbn [negb ctry]; [|eauto].
  destruct (JsString.startsWith _ _); cbn [negb ctry]; [|eauto].
  destruct (shareIdOf u) as [id|]; cbn [ctry]; [|eauto].
  destruct (negb (JsString.truthy id) || negb (Regex.test Regex.uuidRegex id));
    cbn [ctry]; eauto.
Qed.

Lemma validateClaudeURL_true s :
  validateClaudeURL parse s = Normal true <-> exists u id, accepted parse s u id.
Proof.
  unfold validateClaudeURL, newURL, accepted. split.
  - destruct s as [|c s]; [discriminate|]. cbn [JsString.truthy negb].
    destruct (parse _) as [u|] eqn:Hp; cbn [cbind ctry]; [|discriminate].
    destruct (JsString.includes _ _) eqn:Hh; cbn [negb ctry]; [|discriminate].
    destruct (JsString.startsWith _ _) eqn:Hpre; cbn [negb ctry]; [|discriminate].
    destruct (shareIdOf u) as [id|] eqn:Hid; cbn [ctry]; [|discriminate].
    destruct (JsString.truthy id); cbn [negb orb ctry]; [|discriminate].
    destruct (Regex.test Regex.uuidRegex id) eqn:Hre; cbn [negb ctry]; [|discriminate].
    intros _. exists u, id. repeat split; congruence.
  - intros (u & id & Hs & Hp & Hh & Hpre & Hid & Hre).
    destruct s as [|c s]; [congruence|]. cbn [JsString.truthy negb].
    rewrite Hp. cbn [cbind]. rewrite Hh, Hpre, Hid, Hre. cbn [negb].
    destruct id; [discriminate Hre | reflexivity].
Qed.

Lemma extractShareId_accepted s u id :
  accepted parse s u id -> extractShareId parse s = Normal (Some id).
Proof.
  intros H. unfold extractShareId.
  assert (Hv : validateClaudeURL parse s = Normal true)
    by (apply validateClaudeURL_true; eauto).
  rewrite Hv. cbn [cbind negb]. destruct H as (_ & Hp & _ & _ & Hid & _).
  unfold newURL. rewrite Hp. cbn [cbind ctry]. congruence.
Qed.

Lemma extractShareId_total s : exists r, extractShareId parse s = Normal r.
Proof.
  unfold extractShareId. destruct (validateClaudeURL_total s) as [[] Hv]; rewrite Hv;
    cbn [cbind negb]; [|eauto].
  apply validateClaudeURL_true in Hv as (u & id & Ha).
  destruct Ha as (_ & Hp & _). unfold newURL. rewrite Hp. cbn. eauto.
Qed.

Lemma extractShareId_some s id :
  extractShareId parse s = Normal (Some id) -> exists u, accepted parse s u id.
Proof.
  unfold extractShareId. destruct (validateClaudeURL_total s) as [[] Hv]; rewrite Hv;
    cbn [cbind negb]; [|discriminate].
  apply validateClaudeURL_true in Hv as (u & id' & Ha).
  pose proof Ha as (_ & Hp & _ & _ & Hid & _).
  unfold newURL. rewrite Hp. cbn [cbind ctry]. rewrite Hid. intros [= <-]. eauto.
Qed.

(** C5: [extractShareId(s)] is non-null exactly when [validateClaudeURL(s)]
    is [true], and a non-null result passes the share-id regular expression,
    that is, it has the 8-4-4-4-12 hexadecimal shape. Neither function
    throws. *)
Theorem extractShareId_iff_validateClaudeURL (s : string) :
  ((exists id, extractShareId parse s = Normal (Some id))
   <-> validateClaudeURL parse s = Normal true) /\
  (forall id, extractShareId parse s = Normal (Some id) ->
     Regex.test Regex.uuidRegex id = true /\ uuid_shape id) /\
  (exists r, extractShareId parse s = Normal r).
Proof.
  split; [split|split].
  - intros [id H]. apply extractShareId_some in H as [u Ha].
    apply validateClaudeURL_true. eauto.
  - intros H. apply validateClaudeURL_true in H as (u & id & Ha).
    exists id. eapply extractShareId_accepted; eauto.
  - intros id H. apply extractShareId_some in H as [u Ha].
    assert (Hre : Regex.test Regex.uuidRegex id = true) by apply Ha.
    split; [assumption | apply uuidRegex_shape; assumption].
  - apply extractShareId_total.
Qed.

(** C8: [validateClaudeURL] never throws, and answers [false] for the empty
    string, when the URL parser fails, when the host name does not contain
    [claude.ai], when the path does not begin with [/share/], and when the
    token after [/share/] is missing or does not match the UUID pattern. *)
Theorem validateClaudeURL_fails_closed (s : string) :
  (exists b, validateClaudeURL parse s = Normal b) /\
  (s = EmptyString -> validateClaudeURL parse s = Normal false) /\
  (parse s = None -> validateClaudeURL parse s = Normal false) /\
  (forall u, parse s = Some u ->
     JsString.includes (hostname u) "claude.ai" = false ->
     validateClaudeURL parse s = Normal false) /\
  (forall u, parse s = Some u ->
     JsString.startsWith (pathname u) "/share/" = false ->
     validateClaudeURL parse s = Normal false) /\
  (forall u, parse s = Some u ->
     (forall id, shareIdOf u = Some id -> Regex.test Regex.uuidRegex id = false) ->
     validateClaudeURL parse s = Normal false).
Proof.
  assert (Hfalse : (forall u id, ~ accepted parse s u id) ->
                   validateClaudeURL parse s = Normal false).
  { intros Hn. destruct (validateClaudeURL_total s) as [[] Hv]; [|assumption].
    apply validateClaudeURL_true in Hv as (u & id & Ha). destruct (Hn u id Ha). }
  split; [apply validateClaudeURL_total|].
  repeat split.
  - intros ->. reflexivity.
  - intros Hp. apply Hfalse. intros u id (_ & Hp' & _). congruence.
  - intros u Hp Hh. apply Hfalse. intros u' id (_ & Hp' & Hh' & _). congruence.
  - intros u Hp Hh. apply Hfalse. intros u' id (_ & Hp' & _ & Hh' & _). congruence.
  - intros u Hp Hh. apply Hfalse. intros u' id (_ & Hp' & _ & _ & Hid & Hre).
    assert (u' = u) by congruence. subst u'. rewrite (Hh id Hid) in Hre. discriminate.
Qed.

End AnyParser.

(** A token of the UUID shape has no [/] in it, so [split('/share/')] of
    [/share/<token>] is the empty piece followed by the token. *)
Lemma slashless_app a b : slashless a -> slashless b -> slashless (a ++ b).
Proof.
  unfold slashless. induction a as [|c a IH]; simpl; intros Ha Hb; [assumption|].
  apply andb_prop in Ha as [Hc Ha]. rewrite Hc. simpl. auto.
Qed.

Lemma hexes_slashless n a : hexes n a -> slashless a.
Proof.
  intros [_ H]. unfold slashless. clear n. induction a as [|c a IH]; simpl in *; [reflexivity|].
  apply andb_prop in H as [Hc H]. rewrite (IH H), andb_true_r.
  destruct (Ascii.eqb_spec c "/"%char) as [->|]; [|reflexivity].
  vm_compute in Hc. discriminate Hc.
Qed.

Lemma uuid_slashless id : Regex.test Regex.uuidRegex id = true -> slashless id.
Proof.
  intros H. apply uuidRegex_shape in H as (a & b & c & d & e & -> & Ha & Hb & Hc & Hd & He).
  assert (Hdash : forall x, slashless x -> slashless ("-" ++ x)) by (intros x Hx; exact Hx).
  apply hexes_slashless in Ha, Hb, Hc, Hd, He.
  apply slashless_app; [assumption|]. apply Hdash.
  apply slashless_app; [assumption|]. apply Hdash.
  apply slashless_app; [assumption|]. apply Hdash.
  apply slashless_app; [assumption|]. apply Hdash. assumption.
Qed.

Lemma split_aux_slashless s : forall cur,
  slashless s ->
  JsString.split_aux "/share/" s 0 cur = [JsString.rev_append cur s].
Proof.
  unfold slashless. induction s as [|c t IH]; intros cur H; [reflexivity|].
  simpl in H. apply andb_prop in H as [Hc H].
  cbn [JsString.split_aux].
  replace (String.prefix "/share/" (String c t)) with false.
  - rewrite (IH _ H). reflexivity.
  - cbn [String.prefix]. destruct (Ascii.eqb_spec c "/"%char) as [->|Hne]; [discriminate Hc|].
    destruct (ascii_dec "/"%char c) as [E|_]; [congruence | reflexivity].
Qed.

Lemma shareIdOf_share_path host id :
  slashless id ->
  shareIdOf {| hostname := host; pathname := "/share/" ++ id |} = Some id.
Proof.
  intros H. unfold shareIdOf, JsString.split. cbn [pathname append].
  cbn.
  replace (String.prefix EmptyString id) with true by (destruct id; reflexivity).
  rewrite split_aux_slashless by assumption. reflexivity.
Qed.

(** C10: the host check is substring containment. Whatever the parser, a
    link whose host merely contains [claude.ai] (and is not [claude.ai]),
    with path [/share/<token>] for a token of the UUID shape, is accepted by
    [validateClaudeURL], and [extractShareId] returns the token. *)
Theorem validateClaudeURL_accepts_foreign_host
    (parse : string -> option URL) (url host id : string) :
  url <> EmptyString ->
  parse url = Some {| hostname := host; pathname := "/share/" ++ id |} ->
  host <> "claude.ai" ->
  JsString.includes host "claude.ai" = true ->
  Regex.test Regex.uuidRegex id = true ->
  validateClaudeURL parse url = Normal true /\
  extractShareId parse url = Normal (Some id).
Proof.
  intros Hne Hp _ Hinc Hre.
  assert (Ha : accepted parse url {| hostname := host; pathname := "/share/" ++ id |} id).
  { repeat split; try assumption.
    - cbn. destruct id; reflexivity.
    - apply shareIdOf_share_path, uuid_slashless, Hre. }
  split.
  - apply validateClaudeURL_true. eauto.
  - eapply extractShareId_accepted; eassumption.
Qed.

(** The attacker-host link of the claim, under the reference parser. *)
Lemma validateClaudeURL_accepts_foreign_host_witness :
  PlainURL.parse "https://claude.ai.attacker.example/share/3fa85f64-5717-4562-b3fc-2c963f66afa6"
  = Some {| hostname := "claude.ai.attacker.example";
            pathname := "/share/" ++ "3fa85f64-5717-4562-b3fc-2c963f66afa6" |} /\
  validateClaudeURL PlainURL.parse
    "https://claude.ai.attacker.example/share/3fa85f64-5717-4562-b3fc-2c963f66afa6"
  = Normal true /\
  extractShareId PlainURL.parse
    "https://claude.ai.attacker.example/share/3fa85f64-5717-4562-b3fc-2c963f66afa6"
  = Normal (Some "3fa85f64-5717-4562-b3fc-2c963f66afa6").
Proof.
  split; [reflexivity|].
  apply (validateClaudeURL_accepts_foreign_host PlainURL.parse
           "https://claude.ai.attacker.example/share/3fa85f64-5717-4562-b3fc-2c963f66afa6"
           "claude.ai.attacker.example" "3fa85f64-5717-4562-b3fc-2c963f66afa6").
  - discriminate.
  - reflexivity.
  - discriminate.
  - reflexivity.
  - reflexivity.
Defined.

(** C5 at a well-formed link and C8 at the malformed link of scenario D,
    under the reference parser. *)
Lemma extractShareId_iff_validateClaudeURL_witness :
  uuid_shape "3fa85f64-5717-4562-b3fc-2c963f66afa6".
Proof.
  apply (extractShareId_iff_validateClaudeURL PlainURL.parse
           "https://claude.ai/share/3fa85f64-5717-4562-b3fc-2c963f66afa6").
  reflexivity.
Defined.

Lemma validateClaudeURL_fails_closed_witness :
  validateClaudeURL PlainURL.parse "https://claude.ai/shared/abc" = Normal false.
Proof.
  destruct (validateClaudeURL_fails_closed PlainURL.parse "https://claude.ai/shared/abc")
    as (_ & _ & _ & _ & H & _).
  apply (H {| hostname := "claude.ai"; pathname := "/shared/abc" |}); reflexivity.
Defined.

End ValidationFacts.

(** * Properties of the paginator *)

Module PaginationFacts.

Local Open Scope list_scope.

Lemma Qceiling_unique (x : Q) (m : Z) :
  (inject_Z (m - 1) < x)%Q -> (x <= inject_Z m)%Q -> Qceiling x = m.
Proof.
  intros Hlo Hhi.
  assert (H1 : (Qceiling x <= m)%Z).
  { rewrite <- (Qceiling_Z m). apply Qceiling_resp_le. exact Hhi. }
  assert (H2 : (m - 1 < Qceiling x)%Z).
  { rewrite Zlt_Qlt. eapply Qlt_le_trans; [exact Hlo | apply Qle_ceiling]. }
  lia.
Qed.

Lemma Qceiling_pred (x : Q) : Qceiling (x - 1) = (Qceiling x - 1)%Z.
Proof.
  apply Qceiling_unique.
  - pose proof (Qceiling_lt x) as H.
    unfold Z.sub in *. rewrite !inject_Z_plus in *.
    change (inject_Z (- (1))) with (-1)%Q in *. lra.
  - pose proof (Qle_ceiling x) as H.
    unfold Z.sub. rewrite inject_Z_plus.
    change (inject_Z (- (1))) with (-1)%Q. lra.
Qed.

Lemma pages_step (x : Q) :
  (0 < x)%Q ->
  Z.to_nat (Qceiling (x / pageHeight)) = S (Z.to_nat (Qceiling ((x - pageHeight) / pageHeight))).
Proof.
  intros H.
  assert (E : ((x - pageHeight) / pageHeight == x / pageHeight - 1)%Q).
  { unfold pageHeight. field. }
  rewrite E, Qceiling_pred.
  assert (H1 : (0 < Qceiling (x / pageHeight))%Z).
  { rewrite Zlt_Qlt. eapply Qlt_le_trans; [|apply Qle_ceiling].
    change (inject_Z 0) with 0%Q. unfold pageHeight. apply Qlt_shift_div_l; lra. }
  lia.
Qed.

Lemma pages_stop (x : Q) :
  (x <= 0)%Q -> Z.to_nat (Qceiling (x / pageHeight)) = 0%nat.
Proof.
  intros H.
  assert (H1 : (Qceiling (x / pageHeight) <= 0)%Z).
  { rewrite <- (Qceiling_Z 0). apply Qceiling_resp_le.
    change (inject_Z 0) with 0%Q. unfold pageHeight. apply Qle_shift_div_r; lra. }
  lia.
Qed.

Lemma pages_addPage_addImage data format x y w h pdf :
  JsPDF.pages (JsPDF.addImage data format x y w h (JsPDF.addPage pdf))
  = JsPDF.pages pdf ++ [[JsPDF.Image data format x y w h]].
Proof. reflexivity. Qed.

Lemma morePages_pages canvas heightLeft pageCount pdf :
  JsPDF.pages (morePages canvas heightLeft pageCount pdf)
  = JsPDF.pages pdf
      ++ map (pageAt canvas)
           (seq pageCount (Z.to_nat (Qceiling (heightLeft / pageHeight)))).
Proof.
  funelim (morePages canvas heightLeft pageCount pdf).
  - rewrite H. rewrite pages_addPage_addImage, <- app_assoc.
    rewrite (pages_step heightLeft) by assumption. reflexivity.
  - rewrite pages_stop by assumption. simpl. rewrite app_nil_r. reflexivity.
Qed.

Lemma imgHeight_positive canvas : (0 < imgHeight canvas)%Q.
Proof.
  unfold imgHeight, imgWidth. apply Qlt_shift_div_l.
  - reflexivity.
  - rewrite Qmult_0_l. reflexivity.
Qed.

Lemma paginate_pages canvas :
  JsPDF.pages (paginate canvas)
  = map (pageAt canvas) (seq 0 (Z.to_nat (Qceiling (imgHeight canvas / pageHeight)))).
Proof.
  unfold paginate. rewrite morePages_pages.
  rewrite (pages_step (imgHeight canvas)) by apply imgHeight_positive.
  reflexivity.
Qed.

(** C4: for a captured image of positive width and height, with
    H = 297 and C = canvas.height * 210 / canvas.width, the document has
    exactly ceil(C / H) pages and at least one; the page at index [i] holds
    the whole image at vertical offset -(i * H), page 0 at offset 0; and when
    C is [k] times H for a positive integer [k] there are exactly [k] pages,
    so no trailing blank page. *)
Theorem paginate_page_count_and_offsets (canvas : Canvas) :
  let C := imgHeight canvas in
  let n := Z.to_nat (Qceiling (C / pageHeight)) in
  let doc := JsPDF.pages (paginate canvas) in
  (pageHeight == 297 /\
   C == inject_Z (Zpos (height canvas)) * 210 / inject_Z (Zpos (width canvas)))%Q /\
  length doc = n /\
  (1 <= n)%nat /\
  nth_error doc 0 = Some [JsPDF.Image (toDataURL canvas) "JPEG" 0 0 imgWidth C] /\
  (forall i, (i < n)%nat ->
     exists y,
       nth_error doc i = Some [JsPDF.Image (toDataURL canvas) "JPEG" 0 y imgWidth C] /\
       (y == - (inject_Z (Z.of_nat i) * pageHeight))%Q) /\
  (forall k : positive, (C == inject_Z (Zpos k) * pageHeight)%Q -> n = Pos.to_nat k).
Proof.
  intros C n doc.
  assert (Hn : (1 <= n)%nat).
  { subst n. rewrite (pages_step C) by apply imgHeight_positive. lia. }
  assert (Hdoc : doc = map (pageAt canvas) (seq 0 n)) by apply paginate_pages.
  split; [split; reflexivity|].
  split; [rewrite Hdoc, length_map, length_seq; reflexivity|].
  split; [exact Hn|].
  split.
  { rewrite Hdoc. destruct n as [|n']; [lia | reflexivity]. }
  split.
  - intros i Hi. exists (- pageHeight * inject_Z (Z.of_nat i))%Q. split.
    + rewrite Hdoc, nth_error_map, nth_error_seq.
      destruct (Nat.ltb_spec i n) as [_|Hge]; [reflexivity | lia].
    + ring.
  - intros k Hk. subst n.
    assert (E : (C / pageHeight == inject_Z (Zpos k))%Q).
    { rewrite Hk. unfold pageHeight. field. }
    rewrite E, Qceiling_Z. reflexivity.
Qed.

(** Scenario C of the specification: a content height of 3.4 pages gives
    four pages, at offsets 0, -297, -594 and -891. *)
Example paginate_scenario_C :
  map (fun page => match page with [JsPDF.Image _ _ _ y _ _] => Some y | _ => None end)
      (JsPDF.pages (paginate {| width := 2100; height := 10098; toDataURL := "jpeg" |}))
  = [Some 0%Q; Some (-297)%Q; Some (-594)%Q; Some (-891)%Q].
Proof. reflexivity. Qed.

(** The first revision on a canvas two pages tall: two pages as well, but
    the first one already moved up by a page height. *)
Example first_revision_offsets :
  map (fun page => match page with [JsPDF.Image _ _ _ y _ _] => Some y | _ => None end)
      (FirstRevision.paginate {| width := 210; height := 594; toDataURL := "png" |})
  = [Some (-297)%Q; Some (-594)%Q].
Proof. reflexivity. Qed.

End PaginationFacts.

(** * Properties of the content normalizer *)

Module NormalizerFacts.

Lemma app_nonempty (a b : string) : a <> EmptyString -> a ++ b <> EmptyString.
Proof. destruct a; [congruence | discriminate]. Qed.

Lemma prefix_app (p a b : string) :
  String.prefix p a = true -> String.prefix p (a ++ b) = true.
Proof.
  revert a. induction p as [|c p IH]; intros a H.
  - destruct (a ++ b); reflexivity.
  - destruct a as [|d a]; [discriminate|]. cbn in *.
    destruct (ascii_dec c d); [auto | discriminate].
Qed.

Lemma includes_app_l (a b p : string) :
  JsString.includes a p = true -> JsString.includes (a ++ b) p = true.
Proof.
  induction a as [|c a IH]; cbn [JsString.includes]; intros H.
  - rewrite orb_false_r in H. destruct p; [|discriminate].
    destruct b; reflexivity.
  - apply orb_true_iff in H as [H|H].
    + apply (prefix_app _ _ b) in H. cbn [append] in H.
      cbn [JsString.includes append]. rewrite H. reflexivity.
    + cbn [append JsString.includes]. rewrite (IH H). apply orb_true_r.
Qed.

Lemma mainShell_styled : styledShell mainShellHead mainShellTail = true.
Proof. vm_compute. reflexivity. Qed.

Lemma rawShell_styled : styledShell rawShellHead rawShellTail = true.
Proof. vm_compute. reflexivity. Qed.

Lemma shells_nonempty : mainShellHead <> EmptyString /\ rawShellHead <> EmptyString.
Proof. split; intros H; vm_compute in H; discriminate H. Qed.

(** The two outcomes of [processHtml]. *)
Lemma processHtml_cases (html : string) :
  (exists inner, MainRegex.search html = Some inner /\ inner <> EmptyString /\
     processHtml html = mainShellHead ++ inner ++ mainShellTail) \/
  ((MainRegex.search html = None \/ MainRegex.search html = Some EmptyString) /\
     processHtml html = rawShellHead ++ html ++ rawShellTail).
Proof.
  unfold processHtml. destruct (MainRegex.search html) as [[|c inner]|].
  - right. auto.
  - left. exists (String c inner). repeat split. discriminate.
  - right. auto.
Qed.

Lemma styled_rules (head rest : string) :
  forallb (JsString.includes head) authorRoleRules = true ->
  forallb (JsString.includes (head ++ rest)) authorRoleRules = true.
Proof.
  rewrite !forallb_forall. intros H p Hp. apply includes_app_l, H, Hp.
Qed.

Lemma eat_lit_sound lit : forall s r,
  MainRegex.eat_lit lit s = Some r -> exists l, s = l ++ r /\ sameLetters l lit.
Proof.
  induction lit as [|a lit IH]; intros s r H; cbn in H.
  - injection H as <-. exists EmptyString. split; reflexivity.
  - destruct s as [|b t]; [discriminate|].
    destruct (Ascii.eqb_spec (JsString.lower a) (JsString.lower b)) as [E|]; [|discriminate].
    apply IH in H as (l & -> & Hl). exists (String b l). split; [reflexivity|].
    unfold sameLetters in *. cbn. congruence.
Qed.

Lemma eat_lit_complete lit : forall l r,
  sameLetters l lit -> MainRegex.eat_lit lit (l ++ r) = Some r.
Proof.
  unfold sameLetters.
  induction lit as [|a lit IH]; intros l r H; destruct l as [|b l]; try discriminate.
  - reflexivity.
  - cbn in H. injection H as Hb Hl. cbn. rewrite Hb, Ascii.eqb_refl. apply IH, Hl.
Qed.

Lemma includes_gt_cons (c : ascii) (t : string) :
  JsString.includes (String c t) ">" = Ascii.eqb c ">"%char || JsString.includes t ">".
Proof.
  cbn [JsString.includes String.prefix].
  destruct (ascii_dec ">"%char c) as [<-|Hne].
  - destruct t; reflexivity.
  - destruct (Ascii.eqb_spec c ">"%char); [congruence | reflexivity].
Qed.

Lemma eat_tag_sound s : forall r,
  MainRegex.eat_tag s = Some r ->
  exists a, s = a ++ ">" ++ r /\ JsString.includes a ">" = false.
Proof.
  induction s as [|c t IH]; intros r H; cbn in H; [discriminate|].
  destruct (Ascii.eqb_spec c ">"%char) as [->|Hc].
  - injection H as <-. exists EmptyString. split; reflexivity.
  - apply IH in H as (a & -> & Ha). exists (String c a). split; [reflexivity|].
    cbn [append]. rewrite includes_gt_cons, Ha.
    destruct (Ascii.eqb_spec c ">"%char); [congruence | reflexivity].
Qed.

Lemma eat_tag_complete a : forall r,
  JsString.includes a ">" = false -> MainRegex.eat_tag (a ++ ">" ++ r) = Some r.
Proof.
  induction a as [|c a IH]; intros r H.
  - reflexivity.
  - rewrite includes_gt_cons in H. apply orb_false_iff in H as [Hc Ha].
    cbn [append MainRegex.eat_tag]. rewrite Hc. apply IH, Ha.
Qed.

Lemma lazy_until_sound lit s : forall g,
  MainRegex.lazy_until lit s = Some g ->
  exists l after, s = g ++ l ++ after /\ sameLetters l lit.
Proof.
  induction s as [|c t IH]; intros g H; cbn [MainRegex.lazy_until] in H.
  - destruct (MainRegex.eat_lit lit EmptyString) as [r|] eqn:E; [|discriminate].
    injection H as <-. apply eat_lit_sound in E as (l & E & Hl). eauto.
  - destruct (MainRegex.eat_lit lit (String c t)) as [r|] eqn:E.
    + injection H as <-. apply eat_lit_sound in E as (l & E & Hl). eauto.
    + destruct (MainRegex.lazy_until lit t) as [g'|]; [|discriminate].
      injection H as <-. destruct (IH g' eq_refl) as (l & after & -> & Hl).
      exists l, after. split; [reflexivity | assumption].
Qed.

Lemma lazy_until_complete lit l after : forall g,
  sameLetters l lit -> exists g', MainRegex.lazy_until lit (g ++ l ++ after) = Some g'.
Proof.
  intros g Hl. induction g as [|c g [g' IH]].
  - exists EmptyString. cbn [append].
    assert (E : MainRegex.eat_lit lit (l ++ after) = Some after) by (apply eat_lit_complete, Hl).
    destruct (l ++ after); cbn [MainRegex.lazy_until]; rewrite E; reflexivity.
  - cbn [append MainRegex.lazy_until].
    destruct (MainRegex.eat_lit lit _); [eauto|]. rewrite IH. cbn. eauto.
Qed.

Lemma match_at_sound s inner :
  MainRegex.match_at s = Some inner -> mainRegion s inner.
Proof.
  unfold MainRegex.match_at. intros H.
  destruct (MainRegex.eat_lit "<main" s) as [r|] eqn:E1; [|discriminate].
  destruct (MainRegex.eat_tag r) as [r'|] eqn:E2; [|discriminate].
  apply eat_lit_sound in E1 as (opening & -> & Ho).
  apply eat_tag_sound in E2 as (attrs & -> & Ha).
  apply lazy_until_sound in H as (closing & after & -> & Hc).
  exists EmptyString, opening, attrs, closing, after. auto.
Qed.

Lemma search_sound html : forall inner,
  MainRegex.search html = Some inner -> mainRegion html inner.
Proof.
  induction html as [|c t IH]; intros inner H; cbn [MainRegex.search] in H.
  - destruct (MainRegex.match_at EmptyString) eqn:E; [|discriminate].
    injection H as <-. apply match_at_sound, E.
  - destruct (MainRegex.match_at (String c t)) eqn:E.
    + injection H as <-. apply match_at_sound, E.
    + apply IH in H as (before & opening & attrs & closing & after & -> & H).
      exists (String c before), opening, attrs, closing, after. split; [reflexivity | assumption].
Qed.

Lemma search_complete html inner :
  mainRegion html inner -> exists found, MainRegex.search html = Some found.
Proof.
  intros (before & opening & attrs & closing & after & -> & Ho & Hc & Ha).
  assert (Hm : exists found,
             MainRegex.match_at (opening ++ attrs ++ ">" ++ inner ++ closing ++ after)
             = Some found).
  { unfold MainRegex.match_at. rewrite (eat_lit_complete _ _ _ Ho).
    rewrite (eat_tag_complete _ _ Ha). apply lazy_until_complete, Hc. }
  destruct Hm as [found Hm].
  induction before as [|c before [f IH]].
  - exists found. cbn [append].
    destruct (opening ++ _); cbn [MainRegex.search]; rewrite Hm; reflexivity.
  - clear Hm. cbn [append MainRegex.search].
    destruct (MainRegex.match_at _) as [g|]; [exists g | exists f]; [reflexivity | exact IH].
Qed.

(** C6 (as amended): [processHtml] is total and its result is never empty:
    it is a well-formed shell ([styledShell]) around the content and holds
    the author-role style rules. When the first match of the [<main>]
    pattern captures non-empty inner content, that content alone, which is
    the inside of a main region of the markup, is wrapped in the main shell.
    When the pattern does not match (in particular when the markup has no
    main region at all) or its first match captures the empty string, the
    whole payload is wrapped in the degraded shell. *)
Theorem processHtml_styled_document (html : string) :
  processHtml html <> EmptyString /\
  forallb (JsString.includes (processHtml html)) authorRoleRules = true /\
  (exists head content tail,
     processHtml html = head ++ content ++ tail /\ styledShell head tail = true) /\
  (forall inner,
     MainRegex.search html = Some inner -> inner <> EmptyString ->
     mainRegion html inner /\
     processHtml html = mainShellHead ++ inner ++ mainShellTail) /\
  (MainRegex.search html = None \/ MainRegex.search html = Some EmptyString ->
   processHtml html = rawShellHead ++ html ++ rawShellTail) /\
  ((forall inner, ~ mainRegion html inner) ->
   processHtml html = rawShellHead ++ html ++ rawShellTail).
Proof.
  pose proof mainShell_styled as Hm. pose proof rawShell_styled as Hr.
  destruct shells_nonempty as [Nm Nr].
  assert (Rm : forallb (JsString.includes mainShellHead) authorRoleRules = true)
    by (vm_compute; reflexivity).
  assert (Rr : forallb (JsString.includes rawShellHead) authorRoleRules = true)
    by (vm_compute; reflexivity).
  destruct (processHtml_cases html) as [(inner & Hs & Hne & E)|[Hs E]].
  - split; [rewrite E; apply app_nonempty, Nm|].
    split; [rewrite E; apply styled_rules, Rm|].
    split; [exists mainShellHead, inner, mainShellTail; auto|].
    split; [|split].
    + intros inner' Hs' _. assert (inner' = inner) by congruence. subst inner'.
      split; [apply search_sound, Hs | exact E].
    + intros [H|H]; congruence.
    + intros Hno. destruct (Hno inner). apply search_sound, Hs.
  - split; [rewrite E; apply app_nonempty, Nr|].
    split; [rewrite E; apply styled_rules, Rr|].
    split; [exists rawShellHead, html, rawShellTail; auto|].
    split; [|split].
    + intros inner Hs' Hne. destruct Hs as [Hs|Hs]; congruence.
    + intros _. exact E.
    + intros _. exact E.
Qed.

(** C6 (counterexample): the markup [<main></main>] has a main region, with
    empty inner content, and the pattern matches it; yet the result is not
    the main shell around any inner content: the whole payload is wrapped in
    the degraded shell. *)
Lemma processHtml_empty_main_counterexample :
  mainRegion "<main></main>" EmptyString /\
  MainRegex.search "<main></main>" = Some EmptyString /\
  (forall inner, processHtml "<main></main>" <> mainShellHead ++ inner ++ mainShellTail) /\
  processHtml "<main></main>" = rawShellHead ++ "<main></main>" ++ rawShellTail.
Proof.
  split; [|split; [|split]].
  - apply search_sound. reflexivity.
  - reflexivity.
  - intros inner H. vm_compute in H. discriminate H.
  - reflexivity.
Qed.

End NormalizerFacts.

(** * Properties of the conversion pipeline *)

Module PipelineFacts.

Local Open Scope list_scope.

Lemma after_nil w : after w [] = w.
Proof. destruct w. unfold after. cbn. rewrite app_nil_r. reflexivity. Qed.

Lemma after_after w a b : after (after w a) b = after w (a ++ b).
Proof. unfold after. cbn. rewrite app_assoc. reflexivity. Qed.

Lemma requestsOf_app a b : requestsOf (a ++ b) = requestsOf a ++ requestsOf b.
Proof. apply flat_map_app. Qed.

Lemma downloadsOf_app a b : downloadsOf (a ++ b) = downloadsOf a ++ downloadsOf b.
Proof. apply flat_map_app. Qed.

Lemma errorsOf_app a b : errorsOf (a ++ b) = errorsOf a ++ errorsOf b.
Proof. apply flat_map_app. Qed.

(** Closes goals about the events appended by a run. *)
Ltac events_done :=
  rewrite ?requestsOf_app, ?downloadsOf_app, ?errorsOf_app; cbn;
  rewrite <- ?app_assoc, ?app_nil_r; cbn;
  repeat split; try reflexivity; try congruence; auto.

Section Runs.

Variable parse : string -> option URL.
Variable env : Env.

(** One round of the proxy loop. *)
Lemma proxy_round shareId proxy w :
  exists evs,
    try_catch
      (bind (fetch env (proxyRequest shareId proxy)) (fun response =>
         if ok response
         then bind (lift (text response)) (fun html => ret (Some html))
         else ret None))
      (fun e => bind (console_warn ("Proxy " ++ proxy ++ " failed:")%string e)
                  (fun _ => ret None)) w
    = (Normal (delivered env (proxyRequest shareId proxy)), after w evs) /\
    requestsOf evs = [proxyRequest shareId proxy] /\ downloadsOf evs = [].
Proof.
  unfold try_catch, bind, fetch, delivered, lift, ret, console_warn, emit, after. cbn.
  destruct (fetch_answer env (proxyRequest shareId proxy)) as [response|e].
  - destruct (ok response).
    + destruct (text response) as [html|e].
      * exists [Fetched (proxyRequest shareId proxy)]. auto.
      * exists [Fetched (proxyRequest shareId proxy);
                Warned ("Proxy " ++ proxy ++ " failed:")%string e].
        cbn. rewrite <- app_assoc. auto.
    + exists [Fetched (proxyRequest shareId proxy)]. auto.
  - exists [Fetched (proxyRequest shareId proxy);
            Warned ("Proxy " ++ proxy ++ " failed:")%string e].
    cbn. rewrite <- app_assoc. auto.
Qed.

Lemma tryProxies_run shareId proxies : forall w,
  exists evs,
    tryProxies env shareId proxies w
    = (Normal (match snd (firstDelivery env (map (proxyRequest shareId) proxies)) with
               | Some html => (html, true)
               | None => (EmptyString, false)
               end), after w evs) /\
    requestsOf evs = fst (firstDelivery env (map (proxyRequest shareId) proxies)) /\
    downloadsOf evs = [].
Proof.
  induction proxies as [|proxy rest IH]; intros w.
  - exists []. rewrite after_nil. auto.
  - destruct (proxy_round shareId proxy w) as (evs1 & Hrun & Hreq & Hdl).
    cbn [tryProxies map firstDelivery]. unfold bind at 1. rewrite Hrun.
    destruct (delivered env (proxyRequest shareId proxy)) as [html|].
    + exists evs1. auto.
    + destruct (IH (after w evs1)) as (evs2 & Hrun2 & Hreq2 & Hdl2).
      exists (evs1 ++ evs2). rewrite Hrun2, after_after.
      destruct (firstDelivery env (map (proxyRequest shareId) rest)) as [tried got].
      cbn [fst snd] in *. rewrite requestsOf_app, downloadsOf_app, Hreq, Hreq2, Hdl, Hdl2.
      auto.
Qed.

Lemma fetchClaudeContent_run shareId w :
  exists evs,
    fetchClaudeContent env shareId w = (snd (fetchPolicy env shareId), after w evs) /\
    requestsOf evs = fst (fetchPolicy env shareId) /\
    downloadsOf evs = [].
Proof.
  destruct (tryProxies_run shareId corsProxies w) as (evs1 & Hrun & Hreq & Hdl).
  unfold fetchClaudeContent, fetchPolicy, try_catch. unfold bind at 1. rewrite Hrun.
  destruct (firstDelivery env (map (proxyRequest shareId) corsProxies)) as [tried [html|]].
  - cbn. exists evs1. auto.
  - cbn [snd fst negb] in *.
    unfold bind, fetch, delivered, lift, throw, console_error, emit, after. cbn.
    destruct (fetch_answer env (directRequest shareId)) as [response|e];
      [destruct (ok response); [destruct (text response) as [html|e]|]|]; cbn.
    + exists (evs1 ++ [Fetched (directRequest shareId)]). events_done.
    + exists (evs1 ++ [Fetched (directRequest shareId);
                        Logged "Error fetching Claude content:" e]). events_done.
    + exists (evs1 ++ [Fetched (directRequest shareId);
                        Logged "Error fetching Claude content:" (fetchFailure response)]).
      events_done.
    + exists (evs1 ++ [Fetched (directRequest shareId);
                        Logged "Error fetching Claude content:" e]). events_done.
Qed.

Lemma existsb_last node l : existsb (Nat.eqb node) (l ++ [node]) = true.
Proof. rewrite existsb_app. cbn. rewrite Nat.eqb_refl, orb_true_r. reflexivity. Qed.

Lemma extractShareId_usable url id :
  extractShareId parse url = Normal (Some id) -> usable (Some id) = Some id.
Proof.
  intros H. apply ValidationFacts.extractShareId_some in H as (u & Ha).
  destruct Ha as (_ & _ & _ & _ & _ & Hre).
  destruct id; [discriminate Hre | reflexivity].
Qed.

Lemma renderAndSave_run url id w :
  extractShareId parse url = Normal (Some id) ->
  exists evs,
    renderAndSave parse env url w = renderOutcome env id w evs /\
    requestsOf evs = fst (fetchPolicy env id) /\
    downloadsOf evs = [].
Proof.
  intros Hid. pose proof (extractShareId_usable _ _ Hid) as Hu.
  destruct (fetchClaudeContent_run id w) as (evs & Hrun & Hreq & Hdl).
  exists evs. split; [|auto].
  unfold renderAndSave, renderOutcome. unfold bind at 1, lift. rewrite Hid, Hu.
  unfold bind at 1. rewrite Hrun.
  destruct (snd (fetchPolicy env id)) as [html|e]; [|reflexivity].
  unfold createTemporaryIframe, html2canvas, withIframe, after, timerFires, save, emit,
    removeChild, try_catch, bind, lift, throw, ret, createElement, appendChild, setTimer,
    clearTimer.
  destruct (iframe_load env (processHtml html)); cbn [body fresh timers events fst snd];
    rewrite ?existsb_last; try reflexivity.
  destruct (iframe_element env (processHtml html)); cbn [negb]; [|reflexivity].
  destruct (html2canvas_answer env (processHtml html)) as [canvas|e];
    cbn [body fresh timers events]; rewrite ?existsb_last, <- ?app_assoc; reflexivity.
Qed.

(** The fallback generator on a valid link. *)
Lemma fallbackPdfGeneration_run url id w :
  extractShareId parse url = Normal (Some id) ->
  fallbackPdfGeneration parse url w
  = (Normal tt, after w [Saved (pdfName id) (fallbackDocument id)]).
Proof.
  intros Hid. unfold fallbackPdfGeneration, bind, lift.
  rewrite Hid, (extractShareId_usable _ _ Hid). reflexivity.
Qed.

(** [convertClaudeToPdf] on a valid link, from the outcome of the pipeline. *)
Lemma convertClaudeToPdf_run url id w :
  extractShareId parse url = Normal (Some id) ->
  exists evs,
    requestsOf evs = fst (fetchPolicy env id) /\ downloadsOf evs = [] /\
    renderAndSave parse env url w = renderOutcome env id w evs /\
    convertClaudeToPdf parse env url w
    = match renderOutcome env id w evs with
      | (Normal _, w1) => (Normal tt, w1)
      | (Throws e, w1) =>
          (Normal tt,
           after w1 [Logged "Error converting to PDF:" e;
                     Saved (pdfName id) (fallbackDocument id)])
      end.
Proof.
  intros Hid. destruct (renderAndSave_run url id w Hid) as (evs & Hrun & Hreq & Hdl).
  exists evs. repeat split; try assumption.
  unfold convertClaudeToPdf, try_catch at 1. rewrite Hrun.
  destruct (renderOutcome env id w evs) as [[[]|e] w1]; [reflexivity|].
  unfold try_catch, bind, console_error, emit.
  rewrite (fallbackPdfGeneration_run url id _ Hid). unfold after. cbn.
  rewrite <- app_assoc. reflexivity.
Qed.

(** [convertClaudeToPdf] on a link without identifier. *)
Lemma convertClaudeToPdf_invalid url w :
  extractShareId parse url = Normal None ->
  convertClaudeToPdf parse env url w
  = (Throws generateFailure,
     after w [Logged "Error converting to PDF:" (Error "Invalid Claude share URL");
              Logged "Fallback PDF generation also failed:"
                (Error "Invalid Claude share URL")]).
Proof.
  intros Hid.
  unfold convertClaudeToPdf, renderAndSave, fallbackPdfGeneration, try_catch, bind, lift.
  rewrite Hid. cbn. unfold after. cbn. rewrite <- app_assoc. reflexivity.
Qed.

End Runs.

Lemma firstDelivery_prefix env paths :
  exists rest,
    paths = fst (firstDelivery env paths) ++ rest /\
    match snd (firstDelivery env paths) with
    | Some html =>
        exists before r,
          fst (firstDelivery env paths) = before ++ [r] /\
          delivered env r = Some html /\
          (forall x, In x before -> delivered env x = None)
    | None =>
        rest = [] /\ (forall x, In x paths -> delivered env x = None)
    end.
Proof.
  induction paths as [|r paths (rest & Hp & IH)]; cbn [firstDelivery].
  - exists []. cbn. split; [reflexivity|]. split; [reflexivity|]. intros x [].
  - destruct (delivered env r) as [html|] eqn:E.
    + exists paths. cbn. split; [reflexivity|]. exists [], r. cbn. repeat split; auto.
      intros x [].
    + destruct (firstDelivery env paths) as [tried [html|]]; cbn [fst snd] in *.
      * exists rest. split; [cbn; congruence|].
        destruct IH as (before & r' & -> & Hd & Hb).
        exists (r :: before), r'. repeat split; auto.
        intros x [<-|Hx]; auto.
      * exists rest. split; [cbn; congruence|]. destruct IH as [-> Hall].
        split; [reflexivity|]. intros x [<-|Hx]; auto.
Qed.

Lemma direct_not_proxy shareId :
  ~ In (directRequest shareId) (map (proxyRequest shareId) corsProxies).
Proof.
  intros H. apply in_map_iff in H as (proxy & E & _). discriminate E.
Qed.

Lemma fetchFailure_not_user_message response :
  fetchFailure response <> Error fetchUserMessage.
Proof.
  unfold fetchFailure, fetchUserMessage. intros H. cbn [append] in H. discriminate H.
Qed.

(** C7: [fetchClaudeContent] follows the fetch policy. The proxy paths are
    tried in their order and the tries stop at the first one that delivers,
    whose body is returned; the direct request, with its [Accept] and
    [User-Agent] headers, is issued only after every proxy path failed, once,
    last; an error is thrown only when that request fails too, and it is
    the fixed user-facing message, whatever the transport reported. *)
Theorem fetchClaudeContent_follows_policy (env : Env) (shareId : string) (w : World) :
  let proxies := map (proxyRequest shareId) corsProxies in
  let direct := directRequest shareId in
  let tried := fst (fetchPolicy env shareId) in
  let outcome := snd (fetchPolicy env shareId) in
  (exists w',
     fetchClaudeContent env shareId w = (outcome, w') /\
     requests w' = requests w ++ tried /\
     downloads w' = downloads w /\ body w' = body w) /\
  (forall html,
     outcome = Normal html ->
     (exists before r rest,
        proxies = before ++ r :: rest /\ tried = before ++ [r] /\
        delivered env r = Some html /\
        (forall x, In x before -> delivered env x = None)) \/
     (tried = proxies ++ [direct] /\ delivered env direct = Some html /\
      (forall x, In x proxies -> delivered env x = None))) /\
  (In direct tried <-> forall x, In x proxies -> delivered env x = None) /\
  (forall e,
     outcome = Throws e ->
     e = Error fetchUserMessage /\ tried = proxies ++ [direct] /\
     delivered env direct = None /\
     (forall x, In x proxies -> delivered env x = None)) /\
  headers direct
  = [ ("Accept", "text/html");
      ("User-Agent", "Mozilla/5.0 (Windows NT 10.0; Win64; x64) AppleWebKit/537.36") ] /\
  (forall response, fetchFailure response <> Error fetchUserMessage).
Proof.
  intros proxies direct tried outcome.
  split.
  { destruct (fetchClaudeContent_run env shareId w) as (evs & Hrun & Hreq & Hdl).
    exists (after w evs). split; [exact Hrun|]. unfold requests, downloads, after. cbn.
    rewrite requestsOf_app, downloadsOf_app, Hreq, Hdl, app_nil_r. auto. }
  assert (Hnp : ~ In direct proxies) by apply direct_not_proxy.
  destruct (firstDelivery_prefix env proxies) as (rest & Hp & Hfd).
  subst tried outcome. unfold fetchPolicy.
  change (map (proxyRequest shareId) corsProxies) with proxies.
  change (directRequest shareId) with direct.
  assert (Hh : headers direct
               = [ ("Accept", "text/html");
                   ("User-Agent",
                    "Mozilla/5.0 (Windows NT 10.0; Win64; x64) AppleWebKit/537.36") ])
    by reflexivity.
  clearbody proxies direct.
  destruct (firstDelivery env proxies) as [tr [got|]]; cbn [fst snd] in *.
  - destruct Hfd as (before & r & -> & Hd & Hb).
    rewrite <- app_assoc in Hp. cbn in Hp.
    split; [|split; [|split; [|split]]].
    + intros html [= <-]. left. exists before, r, rest. auto.
    + split.
      * intros Hin. destruct Hnp. rewrite Hp. apply in_app_iff in Hin as [Hin|[<-|[]]].
        -- apply in_app_iff. auto.
        -- apply in_app_iff. right. left. reflexivity.
      * intros Hall. assert (delivered env r = None) as E
          by (apply Hall; rewrite Hp; apply in_app_iff; right; left; reflexivity).
        congruence.
    + intros e [=].
    + exact Hh.
    + apply fetchFailure_not_user_message.
  - destruct Hfd as [-> Hall]. rewrite app_nil_r in Hp. subst tr.
    destruct (delivered env direct) as [html|] eqn:Hd; cbn [fst snd].
    + split; [|split; [|split; [|split]]].
      * intros html' [= <-]. right. auto.
      * split; [auto|]. intros _. apply in_app_iff. right. left. reflexivity.
      * intros e [=].
      * exact Hh.
      * apply fetchFailure_not_user_message.
    + split; [|split; [|split; [|split]]].
      * intros html' [=].
      * split; [auto|]. intros _. apply in_app_iff. right. left. reflexivity.
      * intros e [= <-]. auto.
      * exact Hh.
      * apply fetchFailure_not_user_message.
Qed.

Lemma downloads_after w evs : downloads (after w evs) = downloads w ++ downloadsOf evs.
Proof. unfold downloads, after. cbn. apply downloadsOf_app. Qed.

Lemma downloads_withIframe w a p evs :
  downloads (withIframe w a p evs) = downloads w ++ downloadsOf evs.
Proof. unfold downloads, withIframe. cbn. apply downloadsOf_app. Qed.

(** When the pipeline throws, nothing has been offered for download yet;
    when it returns, exactly the paginated document has. *)
Lemma renderOutcome_downloads env id w evs :
  downloadsOf evs = [] ->
  match renderOutcome env id w evs with
  | (Normal _, w1) =>
      exists canvas, downloads w1 = downloads w ++ [(pdfName id, paginate canvas)]
  | (Throws _, w1) => downloads w1 = downloads w
  end.
Proof.
  intros Hdl. unfold renderOutcome.
  destruct (snd (fetchPolicy env id)) as [html|e].
  - destruct (iframe_load env (processHtml html));
      [destruct (iframe_element env (processHtml html));
       [destruct (html2canvas_answer env (processHtml html)) as [canvas|e]|]| | |];
      try (rewrite downloads_withIframe, Hdl, app_nil_r; reflexivity).
    exists canvas. rewrite downloads_withIframe, downloadsOf_app, Hdl. reflexivity.
  - rewrite downloads_after, Hdl, app_nil_r. reflexivity.
Qed.

Lemma extractShareId_None_or_Some parse url :
  extractShareId parse url = Normal None \/
  exists id, extractShareId parse url = Normal (Some id).
Proof.
  destruct (ValidationFacts.extractShareId_total parse url) as [[id|] H]; eauto.
Qed.

(** C1: on a valid share link, when the pipeline fails after identifier
    extraction (as it does when every network path fails), the error does
    not reach the caller: [convertClaudeToPdf] returns normally, having
    offered the one-page fallback document, which names the link
    [https://claude.ai/share/<identifier>] and carries the browser-print and
    retry-later instructions. [convertClaudeToPdf] throws only when
    identifier extraction fails. *)
Theorem convertClaudeToPdf_falls_back
    (parse : string -> option URL) (env : Env) (url : string) (w : World) :
  (forall id e w1,
     extractShareId parse url = Normal (Some id) ->
     renderAndSave parse env url w = (Throws e, w1) ->
     exists w2,
       convertClaudeToPdf parse env url w = (Normal tt, w2) /\
       downloads w2 = downloads w ++ [(pdfName id, fallbackDocument id)] /\
       JsPDF.pages (fallbackDocument id) = [JsPDF.current (fallbackDocument id)] /\
       In (JsPDF.Text 12 ("Share URL: https://claude.ai/share/" ++ id)%string 20 40 None)
          (JsPDF.current (fallbackDocument id)) /\
       In (JsPDF.Text 12
             "1. Open the share URL in your browser and use the browser's print function"
             20 85 None)
          (JsPDF.current (fallbackDocument id)) /\
       In (JsPDF.Text 12 "2. Try again later when the service might be more stable"
             20 110 None)
          (JsPDF.current (fallbackDocument id))) /\
  (forall id,
     extractShareId parse url = Normal (Some id) ->
     (forall r, delivered env r = None) ->
     exists w1, renderAndSave parse env url w = (Throws (Error fetchUserMessage), w1)) /\
  (forall e w',
     convertClaudeToPdf parse env url w = (Throws e, w') ->
     extractShareId parse url = Normal None).
Proof.
  split; [|split].
  - intros id e w1 Hid Hfail.
    destruct (convertClaudeToPdf_run parse env url id w Hid)
      as (evs & _ & Hdl & Hrun & Hconv).
    pose proof (renderOutcome_downloads env id w evs Hdl) as Hd.
    rewrite Hrun in Hfail. rewrite Hconv, Hfail. rewrite Hfail in Hd.
    eexists. split; [reflexivity|]. split.
    { rewrite downloads_after, Hd. reflexivity. }
    split; [reflexivity|]. cbn. intuition.
  - intros id Hid Hnone.
    destruct (renderAndSave_run parse env url id w Hid) as (evs & Hrun & _).
    rewrite Hrun. unfold renderOutcome, fetchPolicy.
    assert (E : forall paths, snd (firstDelivery env paths) = None).
    { induction paths as [|r paths IH]; [reflexivity|]. cbn. rewrite Hnone.
      destruct (firstDelivery env paths). exact IH. }
    specialize (E (map (proxyRequest id) corsProxies)).
    destruct (firstDelivery env (map (proxyRequest id) corsProxies)) as [tried got].
    cbn in E. subst got. rewrite Hnone. cbn. eauto.
  - intros e w' Hthrow.
    destruct (extractShareId_None_or_Some parse url) as [Hn|[id Hid]]; [exact Hn|].
    destruct (convertClaudeToPdf_run parse env url id w Hid) as (evs & _ & _ & _ & Hconv).
    rewrite Hconv in Hthrow.
    destruct (renderOutcome env id w evs) as [[[]|e'] w1]; discriminate Hthrow.
Qed.

(** Scenario A: the sample link when no network path answers. *)
Lemma convertClaudeToPdf_falls_back_witness :
  exists w2,
    convertClaudeToPdf PlainURL.parse offline sampleLink idle = (Normal tt, w2) /\
    downloads w2 = [(pdfName sampleId, fallbackDocument sampleId)].
Proof.
  destruct (convertClaudeToPdf_falls_back PlainURL.parse offline sampleLink idle)
    as (Hfall & Hoff & _).
  destruct (Hoff sampleId) as (w1 & Hfail); [reflexivity | reflexivity |].
  destruct (Hfall sampleId _ w1 eq_refl Hfail) as (w2 & Hconv & Hdl & _).
  exists w2. split; [exact Hconv | exact Hdl].
Defined.

(** C3 (as amended): when identifier extraction fails, [convertClaudeToPdf]
    throws before any network request is issued, attaches nothing to the
    document and offers no file. The error it throws is the generic
    failure message: the invalid-link error raised at the gate is caught and
    logged, the fallback generator is called and stops at its own identifier
    check, and that second failure is logged too. *)
Theorem convertClaudeToPdf_rejects_invalid_link
    (parse : string -> option URL) (env : Env) (url : string) (w : World) :
  extractShareId parse url = Normal None ->
  exists w',
    convertClaudeToPdf parse env url w = (Throws generateFailure, w') /\
    requests w' = requests w /\
    downloads w' = downloads w /\
    body w' = body w /\
    events w'
    = events w
      ++ [Logged "Error converting to PDF:" (Error "Invalid Claude share URL");
          Logged "Fallback PDF generation also failed:" (Error "Invalid Claude share URL")].
Proof.
  intros Hid. rewrite (convertClaudeToPdf_invalid parse env url w Hid).
  eexists. split; [reflexivity|].
  unfold requests, downloads, after. cbn [events body].
  rewrite requestsOf_app, downloadsOf_app. cbn. rewrite !app_nil_r. auto.
Qed.

(** Scenario D: the malformed link, while the network would answer. *)
Lemma convertClaudeToPdf_rejects_invalid_link_witness :
  exists w',
    convertClaudeToPdf PlainURL.parse (online (Throws (Error "capture")))
      "https://claude.ai/shared/abc" idle
    = (Throws generateFailure, w') /\
    requests w' = [] /\ downloads w' = [].
Proof.
  destruct (convertClaudeToPdf_rejects_invalid_link PlainURL.parse
              (online (Throws (Error "capture"))) "https://claude.ai/shared/abc" idle)
    as (w' & Hconv & Hreq & Hdl & _); [reflexivity|].
  exists w'. split; [exact Hconv|]. split; [exact Hreq | exact Hdl].
Defined.

(** C3 (counterexample): on the malformed link of scenario D identifier
    extraction fails, yet the error that reaches the caller is not the
    invalid-link error, and the fallback generator has been attempted, as
    the console shows. *)
Lemma convertClaudeToPdf_invalid_link_counterexample :
  let run := convertClaudeToPdf PlainURL.parse offline "https://claude.ai/shared/abc" idle in
  extractShareId PlainURL.parse "https://claude.ai/shared/abc" = Normal None /\
  fst run <> Throws (Error "Invalid Claude share URL") /\
  fst run = Throws generateFailure /\
  In "Fallback PDF generation also failed:" (errorLog (snd run)).
Proof.
  cbv zeta. split; [reflexivity|]. split; [|split].
  - intros H. vm_compute in H. discriminate H.
  - reflexivity.
  - vm_compute. right. left. reflexivity.
Qed.

(** C9: when identifier extraction succeeds, [convertClaudeToPdf] returns
    normally and offers exactly one file, named
    [claude-conversation-<identifier>.pdf]: the paginated document when the
    pipeline completes, the fallback document when it fails. *)
Theorem convertClaudeToPdf_offers_one_file
    (parse : string -> option URL) (env : Env) (url id : string) (w : World) :
  extractShareId parse url = Normal (Some id) ->
  exists d w',
    convertClaudeToPdf parse env url w = (Normal tt, w') /\
    downloads w' = downloads w ++ [(("claude-conversation-" ++ id ++ ".pdf")%string, d)] /\
    ((exists w1 canvas,
        renderAndSave parse env url w = (Normal tt, w1) /\ d = paginate canvas) \/
     (exists e w1,
        renderAndSave parse env url w = (Throws e, w1) /\ d = fallbackDocument id)).
Proof.
  intros Hid.
  destruct (convertClaudeToPdf_run parse env url id w Hid) as (evs & _ & Hdl & Hrun & Hconv).
  pose proof (renderOutcome_downloads env id w evs Hdl) as Hd.
  destruct (renderOutcome env id w evs) as [[[]|e] w1].
  - destruct Hd as (canvas & Hd). exists (paginate canvas), w1.
    split; [exact Hconv|]. split; [exact Hd|]. left. eauto.
  - exists (fallbackDocument id). eexists.
    split; [exact Hconv|].
    split; [rewrite downloads_after, Hd; reflexivity|]. right. eauto.
Qed.

(** The sample link with a working capture, and with a failing one. *)
Lemma convertClaudeToPdf_offers_one_file_witness :
  (exists d w',
     convertClaudeToPdf PlainURL.parse
       (online (Normal {| width := 1500; height := 3000; toDataURL := "data:image/jpeg" |}))
       sampleLink idle = (Normal tt, w') /\
     downloads w' = [(("claude-conversation-" ++ sampleId ++ ".pdf")%string, d)]) /\
  (exists d w',
     convertClaudeToPdf PlainURL.parse (online (Throws (Error "capture")))
       sampleLink idle = (Normal tt, w') /\
     downloads w' = [(("claude-conversation-" ++ sampleId ++ ".pdf")%string, d)]).
Proof.
  split.
  - destruct (convertClaudeToPdf_offers_one_file PlainURL.parse
                (online (Normal {| width := 1500; height := 3000;
                                   toDataURL := "data:image/jpeg" |}))
                sampleLink sampleId idle) as (d & w' & Hconv & Hdl & _); [reflexivity|].
    exists d, w'. split; [exact Hconv | exact Hdl].
  - destruct (convertClaudeToPdf_offers_one_file PlainURL.parse
                (online (Throws (Error "capture")))
                sampleLink sampleId idle) as (d & w' & Hconv & Hdl & _); [reflexivity|].
    exists d, w'. split; [exact Hconv | exact Hdl].
Defined.

Lemma in_without node n l : In node l -> node <> n -> In node (without n l).
Proof.
  intros Hin Hne. unfold without. apply filter_In. split; [assumption|].
  destruct (Nat.eqb_spec node n); [contradiction | reflexivity].
Qed.

Lemma not_in_without node l : ~ In node (without node l).
Proof.
  unfold without. intros H. apply filter_In in H as [_ H].
  rewrite Nat.eqb_refl in H. discriminate H.
Qed.

Lemma timerFires_keeps node n w :
  node <> n -> In node (body w) -> In node (body (snd (timerFires n w))).
Proof.
  intros Hne Hin. unfold timerFires, bind, clearTimer, try_catch, removeChild, ret.
  cbn [body snd]. destruct (existsb (Nat.eqb n) (body w)); cbn [snd body].
  - apply in_without; assumption.
  - assumption.
Qed.

(** A node without a pending timer stays attached when the pending timers
    fire. *)
Lemma settle_keeps node w :
  ~ In node (timers w) -> In node (body w) -> In node (body (settle w)).
Proof.
  unfold settle. generalize (timers w) as pending. intros pending.
  revert w. induction pending as [|n pending IH]; intros w Hnot Hin; [exact Hin|].
  cbn [fold_left]. apply IH.
  - intros H. apply Hnot. right. exact H.
  - apply timerFires_keeps; [|exact Hin]. intros ->. apply Hnot. left. reflexivity.
Qed.

Lemma timerFires_only_removes node n w :
  ~ In node (body w) -> ~ In node (body (snd (timerFires n w))).
Proof.
  intros Hnot. unfold timerFires, bind, clearTimer, try_catch, removeChild, ret.
  cbn [body snd]. destruct (existsb (Nat.eqb n) (body w)); cbn [snd body]; [|exact Hnot].
  unfold without. intros H. apply filter_In in H as [H _]. exact (Hnot H).
Qed.

Lemma timerFires_removes node w : ~ In node (body (snd (timerFires node w))).
Proof.
  unfold timerFires, bind, clearTimer, try_catch, removeChild, ret. cbn [body snd].
  destruct (existsb (Nat.eqb node) (body w)) eqn:E; cbn [snd body].
  - apply not_in_without.
  - intros H. assert (existsb (Nat.eqb node) (body w) = true) as E'.
    { apply existsb_exists. exists node. split; [exact H | apply Nat.eqb_refl]. }
    congruence.
Qed.

Lemma fold_timers_only_remove node pending : forall w,
  ~ In node (body w) ->
  ~ In node (body (fold_left (fun w' n => snd (timerFires n w')) pending w)).
Proof.
  induction pending as [|n pending IH]; intros w Hnot; [exact Hnot|].
  cbn [fold_left]. apply IH, timerFires_only_removes, Hnot.
Qed.

(** A node is detached once the pending timers have fired, when it was
    detached before or has a timer pending. *)
Lemma settle_detaches node w :
  ~ In node (body w) \/ In node (timers w) -> ~ In node (body (settle w)).
Proof.
  unfold settle. generalize (timers w) as pending. intros pending. revert w.
  induction pending as [|n pending IH]; intros w [Hnot|Hin].
  - exact Hnot.
  - destruct Hin.
  - apply fold_timers_only_remove, Hnot.
  - cbn [fold_left]. destruct (Nat.eq_dec n node) as [->|Hne].
    + apply fold_timers_only_remove, timerFires_removes.
    + apply IH. right. destruct Hin as [E|Hin]; [contradiction | exact Hin].
Qed.

(** The sibling paths: when the pipeline completes, and whenever the iframe
    does not load, the iframe is detached, at the latest when its timeout
    fires. *)
Lemma renderOutcome_detaches env id w evs html :
  snd (fetchPolicy env id) = Normal html ->
  (iframe_load env (processHtml html) <> Loaded \/
   exists w1, renderOutcome env id w evs = (Normal tt, w1)) ->
  ~ In (fresh w) (body (settle (snd (renderOutcome env id w evs)))).
Proof.
  intros Hf H. apply settle_detaches.
  unfold renderOutcome in *. rewrite Hf in *. cbv zeta in *.
  destruct (iframe_load env (processHtml html));
    [destruct (iframe_element env (processHtml html));
     [destruct (html2canvas_answer env (processHtml html))|]| | |];
    cbn [snd withIframe body timers];
    try (left; apply not_in_without);
    try (right; apply in_app_iff; right; left; reflexivity);
    destruct H as [H|[w1 H]]; try discriminate H; destruct H; reflexivity.
Qed.

(** C2 (the code at a failing input): on a valid link whose page is fetched
    and whose iframe loads, when no element is found or the capture rejects,
    [convertClaudeToPdf] returns with the iframe it appended still a child
    of the body and with no timer left that would remove it: the iframe
    stays attached for good. *)
Theorem convertClaudeToPdf_leaves_iframe_attached
    (parse : string -> option URL) (env : Env) (url id html : string) (w : World) :
  extractShareId parse url = Normal (Some id) ->
  snd (fetchPolicy env id) = Normal html ->
  iframe_load env (processHtml html) = Loaded ->
  (iframe_element env (processHtml html) = false \/
   exists e, html2canvas_answer env (processHtml html) = Throws e) ->
  exists w',
    convertClaudeToPdf parse env url w = (Normal tt, w') /\
    body w' = body w ++ [fresh w] /\
    ~ In (fresh w) (timers w') /\
    In (fresh w) (body (settle w')).
Proof.
  intros Hid Hf Hl Hfail.
  destruct (convertClaudeToPdf_run parse env url id w Hid) as (evs & _ & _ & _ & Hconv).
  assert (Hout : exists e, renderOutcome env id w evs = (Throws e, withIframe w true false evs)).
  { unfold renderOutcome. rewrite Hf. cbv zeta. rewrite Hl.
    destruct Hfail as [He|[e He]]; rewrite He; [eauto|].
    destruct (iframe_element env (processHtml html)); eauto. }
  destruct Hout as (e & Hout). rewrite Hout in Hconv.
  eexists. split; [exact Hconv|].
  assert (Hb : In (fresh w) (body w ++ [fresh w]))
    by (apply in_app_iff; right; left; reflexivity).
  split; [reflexivity|]. split; [apply not_in_without|].
  apply settle_keeps; [apply not_in_without | exact Hb].
Qed.

(** The sample link when the capture rejects. *)
Lemma convertClaudeToPdf_leaves_iframe_attached_witness :
  exists w',
    convertClaudeToPdf PlainURL.parse (online (Throws (Error "capture"))) sampleLink idle
    = (Normal tt, w') /\
    body w' = [0] /\ In 0 (body (settle w')).
Proof.
  destruct (convertClaudeToPdf_leaves_iframe_attached PlainURL.parse
              (online (Throws (Error "capture"))) sampleLink sampleId
              "<html><main>Hello</main></html>" idle)
    as (w' & Hconv & Hbody & _ & Hin).
  - reflexivity.
  - reflexivity.
  - reflexivity.
  - right. exists (Error "capture"). reflexivity.
  - exists w'. split; [exact Hconv|]. split; [exact Hbody | exact Hin].
Defined.

End PipelineFacts.

(** * The shape of the accepted links *)

Module LinkShapeFacts.

Lemma prefix_split (p : string) : forall s,
  String.prefix p s = true <-> exists q, s = p ++ q.
Proof.
  induction p as [|c p IH]; intros s.
  - split; [intros _; exists s; reflexivity | intros _; destruct s; reflexivity].
  - destruct s as [|d s]; cbn [String.prefix].
    + split; [discriminate | intros [q H]; discriminate H].
    + destruct (ascii_dec c d) as [<-|Hne].
      * rewrite IH. split; intros [q H]; exists q; cbn in *; congruence.
      * split; [discriminate | intros [q H]; cbn in H; congruence].
Qed.

Lemma append_assoc (a b c : string) : (a ++ b) ++ c = a ++ b ++ c.
Proof. induction a; cbn; congruence. Qed.

Lemma includes_split (p : string) : forall s,
  JsString.includes s p = true <-> exists a b, s = a ++ p ++ b.
Proof.
  induction s as [|c s IH]; cbn [JsString.includes].
  - rewrite orb_false_r, prefix_split. split.
    + intros [q H]. exists EmptyString, q. exact H.
    + intros (a & b & H). destruct a; [eauto|discriminate H].
  - rewrite orb_true_iff, prefix_split, IH. split.
    + intros [[q H]|(a & b & H)].
      * exists EmptyString, q. exact H.
      * exists (String c a), b. cbn. congruence.
    + intros (a & b & H). destruct a as [|d a].
      * left. exists b. exact H.
      * right. exists a, b. cbn in H. congruence.
Qed.

Lemma rev_append_cons cur c s :
  JsString.rev_append (String c cur) s = JsString.rev_append cur (String c s).
Proof. reflexivity. Qed.

(** The first piece of a split: the text up to the first separator. *)
Lemma split_aux_first (sep s : string) : forall cur,
  exists piece rest more,
    JsString.split_aux sep s 0 cur = JsString.rev_append cur piece :: more /\
    s = piece ++ rest /\
    (rest = EmptyString \/ String.prefix sep rest = true).
Proof.
  induction s as [|c t IH]; intros cur.
  - exists EmptyString, EmptyString, []. auto.
  - cbn [JsString.split_aux]. destruct (String.prefix sep (String c t)) eqn:E.
    + exists EmptyString, (String c t). eexists. auto.
    + destruct (IH (String c cur)) as (piece & rest & more & H & -> & Hr).
      exists (String c piece), rest, more. rewrite H. auto.
Qed.

Lemma split_aux_token (id rest : string) : forall cur,
  slashless id ->
  rest = EmptyString \/ String.prefix "/share/" rest = true ->
  exists more,
    JsString.split_aux "/share/" (id ++ rest) 0 cur = JsString.rev_append cur id :: more.
Proof.
  unfold slashless. induction id as [|c id IH]; intros cur Hs Hr.
  - cbn [append]. destruct Hr as [->|Hr]; [exists []; reflexivity|].
    destruct rest as [|d rest]; [discriminate Hr|].
    cbn [JsString.split_aux]. rewrite Hr. eauto.
  - cbn in Hs. apply andb_prop in Hs as [Hc Hs].
    cbn [append JsString.split_aux].
    replace (String.prefix "/share/" (String c (id ++ rest))) with false.
    + destruct (IH (String c cur) Hs Hr) as [more H]. exists more. rewrite H. reflexivity.
    + cbn [String.prefix]. destruct (ascii_dec "/"%char c) as [<-|]; [discriminate Hc | reflexivity].
Qed.

Lemma split_share_path (q : string) :
  JsString.split ("/share/" ++ q) "/share/"
  = EmptyString :: JsString.split_aux "/share/" q 0 EmptyString.
Proof.
  unfold JsString.split. cbn.
  replace (String.prefix EmptyString q) with true by (destruct q; reflexivity).
  reflexivity.
Qed.

Section Exactly.

Variable parse : string -> option URL.

Lemma accepted_shape url u id :
  accepted parse url u id ->
  exists a b rest,
    u = {| hostname := a ++ "claude.ai" ++ b; pathname := "/share/" ++ id ++ rest |} /\
    uuid_shape id /\
    (rest = EmptyString \/ exists r, rest = "/share/" ++ r).
Proof.
  intros (_ & _ & Hh & Hp & Hid & Hre).
  apply includes_split in Hh as (a & b & Hh).
  unfold JsString.startsWith in Hp. apply prefix_split in Hp as (q & Hq).
  unfold shareIdOf in Hid. rewrite Hq, split_share_path in Hid. cbn [nth_error] in Hid.
  destruct (split_aux_first "/share/" q EmptyString) as (piece & rest & more & Hs & -> & Hr).
  rewrite Hs in Hid. cbn [JsString.rev_append] in Hid. injection Hid as ->.
  exists a, b, rest. destruct u as [host path]. cbn [hostname pathname] in *. subst host path.
  split; [reflexivity|]. split; [apply ValidationFacts.uuidRegex_shape, Hre|].
  destruct Hr as [->|Hr]; [left; reflexivity | right; apply prefix_split, Hr].
Qed.

Lemma shape_accepted url a b id rest :
  url <> EmptyString ->
  parse url = Some {| hostname := a ++ "claude.ai" ++ b;
                      pathname := "/share/" ++ id ++ rest |} ->
  uuid_shape id ->
  (rest = EmptyString \/ exists r, rest = "/share/" ++ r) ->
  accepted parse url {| hostname := a ++ "claude.ai" ++ b;
                        pathname := "/share/" ++ id ++ rest |} id.
Proof.
  intros Hne Hp Hid Hr. apply ValidationFacts.uuidRegex_shape in Hid.
  repeat split; try assumption; cbn [hostname pathname].
  - apply includes_split. exists a, b. reflexivity.
  - apply prefix_split. exists (id ++ rest). reflexivity.
  - unfold shareIdOf. cbn [pathname]. rewrite split_share_path. cbn [nth_error].
    destruct (split_aux_token id rest EmptyString) as [more H].
    + apply ValidationFacts.uuid_slashless, Hid.
    + destruct Hr as [->|[r ->]]; [left; reflexivity | right; apply prefix_split; eauto].
    + rewrite H. reflexivity.
Qed.

(** X1: the links [validateClaudeURL] accepts are exactly the non-empty
    inputs that parse to a host name with [claude.ai] somewhere in it and to
    a path made of [/share/], a token of the UUID shape, and then either
    nothing or a further [/share/] followed by anything. [extractShareId]
    returns that token. *)
Theorem validateClaudeURL_accepts_exactly (url : string) :
  (validateClaudeURL parse url = Normal true <->
   url <> EmptyString /\
   exists a b id rest,
     parse url = Some {| hostname := a ++ "claude.ai" ++ b;
                         pathname := "/share/" ++ id ++ rest |} /\
     uuid_shape id /\
     (rest = EmptyString \/ exists r, rest = "/share/" ++ r)) /\
  (forall a b id rest,
     url <> EmptyString ->
     parse url = Some {| hostname := a ++ "claude.ai" ++ b;
                         pathname := "/share/" ++ id ++ rest |} ->
     uuid_shape id ->
     (rest = EmptyString \/ exists r, rest = "/share/" ++ r) ->
     extractShareId parse url = Normal (Some id)).
Proof.
  split; [split|].
  - intros H. apply ValidationFacts.validateClaudeURL_true in H as (u & id & Ha).
    pose proof Ha as (Hne & Hp & _).
    destruct (accepted_shape _ _ _ Ha) as (a & b & rest & -> & Hid & Hr).
    split; [exact Hne|]. exists a, b, id, rest. auto.
  - intros (Hne & a & b & id & rest & Hp & Hid & Hr).
    apply ValidationFacts.validateClaudeURL_true. do 2 eexists.
    apply shape_accepted; eassumption.
  - intros a b id rest Hne Hp Hid Hr.
    eapply ValidationFacts.extractShareId_accepted. apply shape_accepted; eassumption.
Qed.

End Exactly.

(** A link with more after the token, under the reference parser. *)
Lemma validateClaudeURL_accepts_exactly_witness :
  extractShareId PlainURL.parse
    "https://my-claude.ai.example/share/3FA85F64-5717-4562-b3fc-2c963f66afa6/share/x/y"
  = Normal (Some "3FA85F64-5717-4562-b3fc-2c963f66afa6").
Proof.
  apply (validateClaudeURL_accepts_exactly PlainURL.parse
           "https://my-claude.ai.example/share/3FA85F64-5717-4562-b3fc-2c963f66afa6/share/x/y")
    with (a := "my-") (b := ".example") (rest := "/share/x/y").
  - discriminate.
  - reflexivity.
  - apply ValidationFacts.uuidRegex_shape. reflexivity.
  - right. exists "x/y". reflexivity.
Defined.

End LinkShapeFacts.

(** * Further properties of the conversion pipeline *)

Module ConversionFacts.

Import PipelineFacts.

Local Open Scope list_scope.

Lemma pdfName_length id : String.length (pdfName id) = 24 + String.length id.
Proof.
  unfold pdfName. cbn [append String.length]. do 20 f_equal.
  induction id as [|c id IH]; cbn [append String.length]; [reflexivity|].
  rewrite IH. reflexivity.
Qed.

Lemma hexes_length n a : hexes n a -> String.length a = n.
Proof. intros [H _]. exact H. Qed.

Lemma length_append (a b : string) :
  String.length (a ++ b)%string = String.length a + String.length b.
Proof. induction a as [|c a IH]; cbn; [reflexivity | rewrite IH; reflexivity]. Qed.

Lemma uuid_length id : uuid_shape id -> String.length id = 36.
Proof.
  intros (a & b & c & d & e & -> & Ha & Hb & Hc & Hd & He).
  apply hexes_length in Ha, Hb, Hc, Hd, He.
  repeat (rewrite length_append || cbn [String.length append]).
  lia.
Qed.

Lemma pdfName_slashless id : slashless id -> slashless (pdfName id).
Proof.
  intros H. unfold pdfName.
  apply (ValidationFacts.slashless_app "claude-conversation-"); [reflexivity|].
  apply ValidationFacts.slashless_app; [exact H | reflexivity].
Qed.

(** X2: whatever the input and whatever the platform answers,
    [convertClaudeToPdf] offers at most one file, and the name of a file it
    offers is [claude-conversation-<token>.pdf] for a token of the UUID
    shape: sixty characters with no [/] among them. *)
Theorem convertClaudeToPdf_file_names
    (parse : string -> option URL) (env : Env) (url : string) (w : World) :
  exists offered,
    downloads (snd (convertClaudeToPdf parse env url w)) = downloads w ++ offered /\
    length offered <= 1 /\
    forall name d,
      In (name, d) offered ->
      (exists id, uuid_shape id /\ name = pdfName id) /\
      String.length name = 60 /\
      slashless name.
Proof.
  destruct (extractShareId_None_or_Some parse url) as [Hn|[id Hid]].
  - exists []. rewrite (convertClaudeToPdf_invalid parse env url w Hn).
    cbn [snd]. rewrite downloads_after. cbn. split; [reflexivity|].
    split; [lia|]. intros name d [].
  - assert (Hshape : uuid_shape id).
    { apply ValidationFacts.extractShareId_some in Hid as (u & Ha).
      apply ValidationFacts.uuidRegex_shape, Ha. }
    assert (Hsafe : forall (name : string) (d d' : JsPDF.doc),
               (name, d) = (pdfName id, d') ->
               (exists id, uuid_shape id /\ name = pdfName id) /\
               String.length name = 60 /\ slashless name).
    { intros name d d' [= -> _]. split; [eauto|]. split.
      - rewrite pdfName_length, (uuid_length id Hshape). reflexivity.
      - apply pdfName_slashless, ValidationFacts.uuid_slashless,
          ValidationFacts.uuidRegex_shape, Hshape. }
    destruct (convertClaudeToPdf_run parse env url id w Hid)
      as (evs & _ & Hdl & _ & Hconv).
    pose proof (renderOutcome_downloads env id w evs Hdl) as Hd.
    rewrite Hconv. destruct (renderOutcome env id w evs) as [[[]|e] w1]; cbn [snd].
    + destruct Hd as (canvas & Hd). exists [(pdfName id, paginate canvas)].
      split; [exact Hd|]. split; [cbn; lia|].
      intros name d [H|[]]. eapply Hsafe. symmetry. exact H.
    + exists [(pdfName id, fallbackDocument id)].
      split; [rewrite downloads_after, Hd; reflexivity|]. split; [cbn; lia|].
      intros name d [H|[]]. eapply Hsafe. symmetry. exact H.
Qed.

(** X3: [simulateConversion] never throws and always offers exactly one
    file. On a link with an identifier it does what [convertClaudeToPdf]
    does. On any other input it issues no request, leaves the document
    alone and offers [claude-conversation-demo.pdf], a one-page document
    that quotes the input; the identifier looked up in the [catch] block is
    then always missing, so the name is always the [demo] one. *)
Theorem simulateConversion_always_offers_one_file
    (parse : string -> option URL) (env : Env) (url : string) (w : World) :
  exists name d w',
    simulateConversion parse env url w = (Normal tt, w') /\
    downloads w' = downloads w ++ [(name, d)] /\
    ((exists id,
        extractShareId parse url = Normal (Some id) /\ name = pdfName id /\
        convertClaudeToPdf parse env url w = (Normal tt, w')) \/
     (extractShareId parse url = Normal None /\
      name = "claude-conversation-demo.pdf"%string /\
      d = simulationDocument url /\
      JsPDF.pages d = [JsPDF.current d] /\
      In (JsPDF.Text 14 ("From URL: " ++ url)%string 20 40 None) (JsPDF.current d) /\
      requests w' = requests w /\ body w' = body w /\ timers w' = timers w)).
Proof.
  destruct (extractShareId_None_or_Some parse url) as [Hn|[id Hid]].
  - exists "claude-conversation-demo.pdf"%string, (simulationDocument url).
    unfold simulateConversion, try_catch.
    rewrite (convertClaudeToPdf_invalid parse env url w Hn).
    unfold bind, console_error, emit, lift, save. rewrite Hn. cbn [orDemo usable].
    eexists. split; [reflexivity|].
    unfold downloads, requests, after. cbn [events body timers].
    rewrite !downloadsOf_app, !requestsOf_app. cbn. rewrite !app_nil_r.
    split; [reflexivity|]. right. intuition.
  - destruct (convertClaudeToPdf_run parse env url id w Hid)
      as (evs & _ & Hdl & _ & Hconv).
    pose proof (renderOutcome_downloads env id w evs Hdl) as Hd.
    unfold simulateConversion, try_catch. rewrite Hconv.
    destruct (renderOutcome env id w evs) as [[[]|e] w1].
    + destruct Hd as (canvas & Hd). exists (pdfName id), (paginate canvas), w1.
      split; [reflexivity|]. split; [exact Hd|]. left. exists id. auto.
    + exists (pdfName id), (fallbackDocument id). eexists.
      split; [reflexivity|]. split; [rewrite downloads_after, Hd; reflexivity|].
      left. exists id. auto.
Qed.

End ConversionFacts.

(** * The fetcher and the rendering surface *)

Module SurfaceFacts.

Import PipelineFacts.

Local Open Scope list_scope.

(** X4: [createTemporaryIframe] creates one node and appends it. It
    resolves exactly when the iframe loads, and then the node is attached
    and its timeout is cleared. Whenever it rejects, the node is detached
    again once the timeouts still pending have fired. It logs nothing and
    offers nothing. *)
Theorem createTemporaryIframe_surface (env : Env) (htmlContent : string) (w : World) :
  let node := fresh w in
  let run := createTemporaryIframe env htmlContent w in
  fresh (snd run) = S node /\
  events (snd run) = events w /\
  (fst run = Normal node <-> iframe_load env htmlContent = Loaded) /\
  (forall n, fst run = Normal n ->
     n = node /\ body (snd run) = body w ++ [node] /\ ~ In node (timers (snd run))) /\
  (forall e, fst run = Throws e -> ~ In node (body (settle (snd run)))).
Proof.
  cbv zeta.
  unfold createTemporaryIframe, timerFires, removeChild, try_catch, bind, throw, ret,
    createElement, appendChild, setTimer, clearTimer.
  destruct (iframe_load env htmlContent) eqn:Hl; cbn [fst snd body fresh timers events];
    rewrite ?existsb_last; cbn [fst snd body fresh timers events];
    refine (conj eq_refl (conj eq_refl (conj _ (conj _ _)))).
  - split; reflexivity.
  - intros n [= <-]. split; [reflexivity|]. split; [reflexivity | apply not_in_without].
  - intros e [=].
  - split; discriminate.
  - intros n [=].
  - intros e _. apply settle_detaches. left. apply not_in_without.
  - split; discriminate.
  - intros n [=].
  - intros e _. apply settle_detaches. right. cbn [timers].
    apply in_app_iff. right. left. reflexivity.
  - split; discriminate.
  - intros n [=].
  - intros e' _. apply settle_detaches. right. cbn [timers].
    apply in_app_iff. right. left. reflexivity.
Qed.

Section Fetcher.

Variable env : Env.

(** One round of the proxy loop, with what it writes to the console. *)
Lemma proxy_round_log shareId proxy w :
  exists evs,
    try_catch
      (bind (fetch env (proxyRequest shareId proxy)) (fun response =>
         if ok response
         then bind (lift (text response)) (fun html => ret (Some html))
         else ret None))
      (fun e => bind (console_warn ("Proxy " ++ proxy ++ " failed:")%string e)
                  (fun _ => ret None)) w
    = (Normal (delivered env (proxyRequest shareId proxy)), after w evs) /\
    requestsOf evs = [proxyRequest shareId proxy] /\
    downloadsOf evs = [] /\ errorsOf evs = [].
Proof.
  unfold try_catch, bind, fetch, delivered, lift, ret, console_warn, emit, after. cbn.
  destruct (fetch_answer env (proxyRequest shareId proxy)) as [response|e];
    [destruct (ok response); [destruct (text response) as [html|e]|]|].
  - exists [Fetched (proxyRequest shareId proxy)]. auto.
  - exists [Fetched (proxyRequest shareId proxy);
            Warned ("Proxy " ++ proxy ++ " failed:")%string e].
    cbn. rewrite <- app_assoc. auto.
  - exists [Fetched (proxyRequest shareId proxy)]. auto.
  - exists [Fetched (proxyRequest shareId proxy);
            Warned ("Proxy " ++ proxy ++ " failed:")%string e].
    cbn. rewrite <- app_assoc. auto.
Qed.

Lemma tryProxies_log shareId proxies : forall w,
  exists evs,
    tryProxies env shareId proxies w
    = (Normal (match snd (firstDelivery env (map (proxyRequest shareId) proxies)) with
               | Some html => (html, true)
               | None => (EmptyString, false)
               end), after w evs) /\
    requestsOf evs = fst (firstDelivery env (map (proxyRequest shareId) proxies)) /\
    downloadsOf evs = [] /\ errorsOf evs = [].
Proof.
  induction proxies as [|proxy rest IH]; intros w.
  - exists []. rewrite after_nil. auto.
  - destruct (proxy_round_log shareId proxy w) as (evs1 & Hrun & Hreq & Hdl & Herr).
    cbn [tryProxies map firstDelivery]. unfold bind at 1. rewrite Hrun.
    destruct (delivered env (proxyRequest shareId proxy)) as [html|].
    + exists evs1. auto.
    + destruct (IH (after w evs1)) as (evs2 & Hrun2 & Hreq2 & Hdl2 & Herr2).
      exists (evs1 ++ evs2). rewrite Hrun2, after_after.
      destruct (firstDelivery env (map (proxyRequest shareId) rest)) as [tried got].
      cbn [fst snd] in *.
      rewrite requestsOf_app, downloadsOf_app, errorsOf_app, Hreq, Hreq2, Hdl, Hdl2,
        Herr, Herr2.
      auto.
Qed.

(** The run of [fetchClaudeContent] with its console output. *)
Lemma fetchClaudeContent_log shareId w :
  exists evs,
    fetchClaudeContent env shareId w = (snd (fetchPolicy env shareId), after w evs) /\
    requestsOf evs = fst (fetchPolicy env shareId) /\
    downloadsOf evs = [] /\
    errorsOf evs = match snd (fetchPolicy env shareId) with
                   | Normal _ => []
                   | Throws _ => ["Error fetching Claude content:"%string]
                   end.
Proof.
  destruct (tryProxies_log shareId corsProxies w) as (evs1 & Hrun & Hreq & Hdl & Herr).
  unfold fetchClaudeContent, fetchPolicy, try_catch. unfold bind at 1. rewrite Hrun.
  destruct (firstDelivery env (map (proxyRequest shareId) corsProxies)) as [tried [html|]].
  - cbn. exists evs1. auto.
  - cbn [snd fst negb] in *.
    unfold bind, fetch, delivered, lift, throw, console_error, emit, after. cbn.
    destruct (fetch_answer env (directRequest shareId)) as [response|e];
      [destruct (ok response); [destruct (text response) as [html|e]|]|]; cbn.
    + exists (evs1 ++ [Fetched (directRequest shareId)]).
      rewrite ?requestsOf_app, ?downloadsOf_app, ?errorsOf_app, Hreq, Hdl, Herr; cbn;
        rewrite <- ?app_assoc, ?app_nil_r; auto.
    + exists (evs1 ++ [Fetched (directRequest shareId);
                        Logged "Error fetching Claude content:" e]).
      rewrite ?requestsOf_app, ?downloadsOf_app, ?errorsOf_app, Hreq, Hdl, Herr; cbn;
        rewrite <- ?app_assoc, ?app_nil_r; auto.
    + exists (evs1 ++ [Fetched (directRequest shareId);
                        Logged "Error fetching Claude content:" (fetchFailure response)]).
      rewrite ?requestsOf_app, ?downloadsOf_app, ?errorsOf_app, Hreq, Hdl, Herr; cbn;
        rewrite <- ?app_assoc, ?app_nil_r; auto.
    + exists (evs1 ++ [Fetched (directRequest shareId);
                        Logged "Error fetching Claude content:" e]).
      rewrite ?requestsOf_app, ?downloadsOf_app, ?errorsOf_app, Hreq, Hdl, Herr; cbn;
        rewrite <- ?app_assoc, ?app_nil_r; auto.
Qed.

Lemma fetchPolicy_count shareId :
  1 <= length (fst (fetchPolicy env shareId)) <= 4 /\
  (forall e, snd (fetchPolicy env shareId) = Throws e ->
     e = Error fetchUserMessage /\ length (fst (fetchPolicy env shareId)) = 4).
Proof.
  unfold fetchPolicy.
  destruct (firstDelivery_prefix env (map (proxyRequest shareId) corsProxies))
    as (rest & Hp & Hfd).
  assert (Hlen : length (map (proxyRequest shareId) corsProxies) = 3) by reflexivity.
  destruct (firstDelivery env (map (proxyRequest shareId) corsProxies)) as [tried [html|]];
    cbn [fst snd] in *.
  - destruct Hfd as (before & r & -> & _). rewrite Hp, !length_app in Hlen.
    rewrite length_app. cbn [length] in *. split; [lia|]. intros e [=].
  - destruct Hfd as [-> _]. rewrite app_nil_r in Hp. rewrite <- Hp.
    destruct (delivered env (directRequest shareId)); cbn [fst snd];
      rewrite length_app, Hlen; cbn [length]; (split; [lia|]).
    + intros e [=].
    + intros e [= <-]. auto.
Qed.

(** X5: [fetchClaudeContent] issues at least one request and at most four;
    it writes to [console.error] exactly when it throws, once, after all
    four requests; it offers no file and leaves the document and its timers
    alone. *)
Theorem fetchClaudeContent_effects (shareId : string) (w : World) :
  exists evs,
    snd (fetchClaudeContent env shareId w) = after w evs /\
    1 <= length (requestsOf evs) <= 4 /\
    downloadsOf evs = [] /\
    ((exists html, fst (fetchClaudeContent env shareId w) = Normal html) /\
     errorsOf evs = [] \/
     fst (fetchClaudeContent env shareId w) = Throws (Error fetchUserMessage) /\
     errorsOf evs = ["Error fetching Claude content:"%string] /\
     length (requestsOf evs) = 4).
Proof.
  destruct (fetchClaudeContent_log shareId w) as (evs & Hrun & Hreq & Hdl & Herr).
  destruct (fetchPolicy_count shareId) as (Hcount & Hthrow).
  exists evs. rewrite Hrun, Hreq. cbn [fst snd].
  split; [reflexivity|]. split; [exact Hcount|]. split; [exact Hdl|].
  destruct (snd (fetchPolicy env shareId)) as [html|e].
  - left. eauto.
  - right. destruct (Hthrow e eq_refl) as [-> Hfour]. auto.
Qed.

End Fetcher.

End SurfaceFacts.

(** * The pipeline end to end *)

Module EndToEndFacts.

Import PipelineFacts.

Local Open Scope list_scope.

Section Runs.

Variable parse : string -> option URL.
Variable env : Env.

(** [renderAndSave] from the run of the fetcher it starts with. *)
Lemma renderAndSave_from_fetch url id w evs :
  extractShareId parse url = Normal (Some id) ->
  fetchClaudeContent env id w = (snd (fetchPolicy env id), after w evs) ->
  renderAndSave parse env url w = renderOutcome env id w evs.
Proof.
  intros Hid Hrun. pose proof (extractShareId_usable parse _ _ Hid) as Hu.
  unfold renderAndSave, renderOutcome. unfold bind at 1, lift. rewrite Hid, Hu.
  unfold bind at 1. rewrite Hrun.
  destruct (snd (fetchPolicy env id)) as [html|e]; [|reflexivity].
  unfold createTemporaryIframe, html2canvas, withIframe, after, timerFires, save, emit,
    removeChild, try_catch, bind, lift, throw, ret, createElement, appendChild, setTimer,
    clearTimer.
  destruct (iframe_load env (processHtml html)); cbn [body fresh timers events fst snd];
    rewrite ?existsb_last; try reflexivity.
  destruct (iframe_element env (processHtml html)); cbn [negb]; [|reflexivity].
  destruct (html2canvas_answer env (processHtml html)) as [canvas|e];
    cbn [body fresh timers events]; rewrite ?existsb_last, <- ?app_assoc; reflexivity.
Qed.

(** [convertClaudeToPdf] on a valid link, with the console output of the
    fetcher known. *)
Lemma convertClaudeToPdf_log url id w :
  extractShareId parse url = Normal (Some id) ->
  exists evs,
    requestsOf evs = fst (fetchPolicy env id) /\
    downloadsOf evs = [] /\
    errorsOf evs = match snd (fetchPolicy env id) with
                   | Normal _ => []
                   | Throws _ => ["Error fetching Claude content:"%string]
                   end /\
    convertClaudeToPdf parse env url w
    = match renderOutcome env id w evs with
      | (Normal _, w1) => (Normal tt, w1)
      | (Throws e, w1) =>
          (Normal tt,
           after w1 [Logged "Error converting to PDF:" e;
                     Saved (pdfName id) (fallbackDocument id)])
      end.
Proof.
  intros Hid.
  destruct (SurfaceFacts.fetchClaudeContent_log env id w) as (evs & Hrun & Hreq & Hdl & Herr).
  exists evs. repeat split; try assumption.
  unfold convertClaudeToPdf, try_catch at 1.
  rewrite (renderAndSave_from_fetch url id w evs Hid Hrun).
  destruct (renderOutcome env id w evs) as [[[]|e] w1]; [reflexivity|].
  unfold try_catch, bind, console_error, emit.
  rewrite (fallbackPdfGeneration_run parse url id _ Hid). unfold after. cbn.
  rewrite <- app_assoc. reflexivity.
Qed.

End Runs.

Lemma without_last node l : ~ In node l -> without node (l ++ [node]) = l.
Proof.
  intros Hnot. unfold without. rewrite filter_app. cbn. rewrite Nat.eqb_refl. cbn.
  rewrite app_nil_r. apply forallb_filter_id. apply forallb_forall. intros x Hx.
  destruct (Nat.eqb_spec x node) as [->|]; [contradiction | reflexivity].
Qed.

(** X6: on a valid link, when every network path fails, [convertClaudeToPdf]
    has issued all four requests, has created no iframe and set no timer
    (the document is as it was), has written two messages to
    [console.error], and returns normally with the fallback document
    offered. *)
Theorem convertClaudeToPdf_fetch_failure
    (parse : string -> option URL) (env : Env) (url id : string) (e : JsError)
    (w : World) :
  extractShareId parse url = Normal (Some id) ->
  snd (fetchPolicy env id) = Throws e ->
  exists w',
    convertClaudeToPdf parse env url w = (Normal tt, w') /\
    body w' = body w /\ fresh w' = fresh w /\ timers w' = timers w /\
    requests w'
    = requests w ++ map (proxyRequest id) corsProxies ++ [directRequest id] /\
    errorLog w'
    = errorLog w ++ ["Error fetching Claude content:"; "Error converting to PDF:"]%string /\
    downloads w' = downloads w ++ [(pdfName id, fallbackDocument id)].
Proof.
  intros Hid Hf.
  destruct (convertClaudeToPdf_log parse env url id w Hid)
    as (evs & Hreq & Hdl & Herr & Hconv).
  assert (Htried : fst (fetchPolicy env id)
                   = map (proxyRequest id) corsProxies ++ [directRequest id]).
  { revert Hf. unfold fetchPolicy.
    destruct (firstDelivery_prefix env (map (proxyRequest id) corsProxies))
      as (rest & Hp & Hfd).
    destruct (firstDelivery env (map (proxyRequest id) corsProxies)) as [tried [html|]];
      cbn [fst snd] in *; [discriminate|].
    destruct Hfd as [-> _]. rewrite app_nil_r in Hp. subst tried.
    destruct (delivered env (directRequest id)); cbn [fst snd]; [discriminate | reflexivity]. }
  unfold renderOutcome in Hconv. rewrite Hf in Hconv, Herr.
  eexists. split; [exact Hconv|].
  unfold requests, errorLog, downloads, after. cbn [body fresh timers events].
  rewrite <- !app_assoc, !requestsOf_app, !errorsOf_app, !downloadsOf_app, Hreq, Hdl, Herr,
    Htried.
  cbn. rewrite ?app_nil_r, <- ?app_assoc. repeat split; reflexivity.
Qed.

(** Every path failing, on the sample link. *)
Lemma convertClaudeToPdf_fetch_failure_witness :
  exists w',
    convertClaudeToPdf PlainURL.parse offline sampleLink idle = (Normal tt, w') /\
    body w' = [] /\ length (requests w') = 4.
Proof.
  destruct (convertClaudeToPdf_fetch_failure PlainURL.parse offline sampleLink sampleId
              (Error fetchUserMessage) idle)
    as (w' & Hconv & Hbody & _ & _ & Hreq & _); [reflexivity | reflexivity |].
  exists w'. split; [exact Hconv|]. split; [exact Hbody|]. rewrite Hreq. reflexivity.
Defined.

(** X7: on a valid link, when the page is fetched, the iframe loads, an
    element is found and the capture resolves, [convertClaudeToPdf] offers
    the paginated capture under the identifier's name, writes nothing to
    [console.error], and leaves the document as it found it: the iframe it
    created is detached again and no timeout of its own is pending. *)
Theorem convertClaudeToPdf_clean_success
    (parse : string -> option URL) (env : Env) (url id html : string)
    (canvas : Canvas) (w : World) :
  extractShareId parse url = Normal (Some id) ->
  snd (fetchPolicy env id) = Normal html ->
  iframe_load env (processHtml html) = Loaded ->
  iframe_element env (processHtml html) = true ->
  html2canvas_answer env (processHtml html) = Normal canvas ->
  ~ In (fresh w) (body w) ->
  ~ In (fresh w) (timers w) ->
  exists w',
    convertClaudeToPdf parse env url w = (Normal tt, w') /\
    downloads w' = downloads w ++ [(pdfName id, paginate canvas)] /\
    errorLog w' = errorLog w /\
    body w' = body w /\ timers w' = timers w /\ fresh w' = S (fresh w).
Proof.
  intros Hid Hf Hl He Hc Hb Ht.
  destruct (convertClaudeToPdf_log parse env url id w Hid)
    as (evs & Hreq & Hdl & Herr & Hconv).
  unfold renderOutcome in Hconv. rewrite Hf in Hconv, Herr. cbv zeta in Hconv.
  rewrite Hl, He, Hc in Hconv.
  eexists. split; [exact Hconv|].
  unfold errorLog, downloads, withIframe. cbn [body fresh timers events].
  rewrite !errorsOf_app, !downloadsOf_app, Hdl, Herr, !without_last by assumption.
  cbn. rewrite ?app_nil_r. repeat split; reflexivity.
Qed.

(** Everything working, on the sample link. *)
Lemma convertClaudeToPdf_clean_success_witness :
  exists w',
    convertClaudeToPdf PlainURL.parse
      (online (Normal {| width := 1500; height := 3000; toDataURL := "data:image/jpeg" |}))
      sampleLink idle = (Normal tt, w') /\
    body w' = [] /\ errorLog w' = [].
Proof.
  destruct (convertClaudeToPdf_clean_success PlainURL.parse
              (online (Normal {| width := 1500; height := 3000;
                                 toDataURL := "data:image/jpeg" |}))
              sampleLink sampleId "<html><main>Hello</main></html>"
              {| width := 1500; height := 3000; toDataURL := "data:image/jpeg" |} idle)
    as (w' & Hconv & _ & Herr & Hbody & _);
    try reflexivity; try (intros []).
  exists w'. split; [exact Hconv|]. split; [exact Hbody | exact Herr].
Defined.

End EndToEndFacts.

(** * Which region the normalizer extracts *)

Module RegionFacts.

Import NormalizerFacts.

(** The lazy capture is the shortest one: no closing literal starts inside
    it. *)
Lemma lazy_until_shortest lit s : forall g,
  MainRegex.lazy_until lit s = Some g ->
  exists tail,
    s = g ++ tail /\
    MainRegex.eat_lit lit tail <> None /\
    (forall a b, g = a ++ b -> b <> EmptyString ->
       MainRegex.eat_lit lit (b ++ tail) = None).
Proof.
  induction s as [|c t IH]; intros g H; cbn [MainRegex.lazy_until] in H.
  - destruct (MainRegex.eat_lit lit EmptyString) as [r|] eqn:E; [|discriminate].
    injection H as <-. exists EmptyString. split; [reflexivity|].
    split; [congruence|]. intros a b Hab Hb. destruct a; cbn in Hab; congruence.
  - destruct (MainRegex.eat_lit lit (String c t)) as [r|] eqn:E.
    + injection H as <-. exists (String c t). split; [reflexivity|].
      split; [congruence|]. intros a b Hab Hb. destruct a; cbn in Hab; congruence.
    + destruct (MainRegex.lazy_until lit t) as [g'|]; [|discriminate].
      injection H as <-. destruct (IH g' eq_refl) as (tail & -> & Hclose & Hshort).
      exists tail. split; [reflexivity|]. split; [exact Hclose|].
      intros a b Hab Hb. destruct a as [|d a]; cbn [append] in Hab.
      * subst b. exact E.
      * injection Hab as _ Hab. exact (Hshort a b Hab Hb).
Qed.

(** X8: when the pattern of [processHtml] matches, the match is the first
    one and its capture the shortest: the markup is some text at no
    position of which the pattern matches, then an opening [<main ..>] tag,
    the captured content, and a closing [</main>] tag, and no closing tag
    starts inside the captured content. *)
Theorem search_first_and_shortest (html inner : string) :
  MainRegex.search html = Some inner ->
  exists before opening attrs tail,
    html = before ++ opening ++ attrs ++ ">" ++ inner ++ tail /\
    sameLetters opening "<main" /\
    JsString.includes attrs ">" = false /\
    MainRegex.eat_lit "</main>" tail <> None /\
    (forall a b, inner = a ++ b -> b <> EmptyString ->
       MainRegex.eat_lit "</main>" (b ++ tail) = None) /\
    (forall p q, before = p ++ q -> q <> EmptyString ->
       MainRegex.match_at (q ++ opening ++ attrs ++ ">" ++ inner ++ tail) = None).
Proof.
  revert inner. induction html as [|c t IH]; intros inner H; cbn [MainRegex.search] in H.
  - destruct (MainRegex.match_at EmptyString) eqn:E; discriminate E || discriminate H.
  - destruct (MainRegex.match_at (String c t)) as [g|] eqn:E.
    + injection H as <-. unfold MainRegex.match_at in E.
      destruct (MainRegex.eat_lit "<main" (String c t)) as [r|] eqn:E1; [|discriminate].
      destruct (MainRegex.eat_tag r) as [r'|] eqn:E2; [|discriminate].
      apply eat_lit_sound in E1 as (opening & E1 & Ho).
      apply eat_tag_sound in E2 as (attrs & -> & Ha).
      apply lazy_until_shortest in E as (tail & -> & Hclose & Hshort).
      exists EmptyString, opening, attrs, tail. rewrite E1.
      repeat split; try assumption.
      intros p q Hpq Hq. destruct p; cbn in Hpq; congruence.
    + destruct (IH inner H) as (before & opening & attrs & tail & -> & Ho & Ha & Hc & Hs & Hl).
      exists (String c before), opening, attrs, tail.
      repeat split; try assumption.
      intros p q Hpq Hq. destruct p as [|d p]; cbn [append] in Hpq.
      * subst q. exact E.
      * injection Hpq as _ Hpq. exact (Hl p q Hpq Hq).
Qed.

(** Two regions in a row: the first is the one extracted. *)
Lemma search_first_and_shortest_witness :
  exists before opening attrs tail,
    "<p><MAIN id=1>one</main><main>two</main>"
    = before ++ opening ++ attrs ++ ">" ++ "one" ++ tail /\
    MainRegex.eat_lit "</main>" tail <> None.
Proof.
  destruct (search_first_and_shortest "<p><MAIN id=1>one</main><main>two</main>" "one")
    as (before & opening & attrs & tail & H & _ & _ & Hc & _); [reflexivity|].
  exists before, opening, attrs, tail. split; [exact H | exact Hc].
Defined.

End RegionFacts.

(** * The page windows *)

Module WindowFacts.

Import PaginationFacts.

Local Open Scope list_scope.

(** X9: the page windows cover the image and none is empty: with [n] the
    number of pages and C the scaled height, (n - 1) * 297 < C <= n * 297.
    The document has a single page exactly when C is at most 297. *)
Theorem paginate_windows_cover (canvas : Canvas) :
  let n := length (JsPDF.pages (paginate canvas)) in
  (inject_Z (Z.of_nat n - 1) * pageHeight < imgHeight canvas)%Q /\
  (imgHeight canvas <= inject_Z (Z.of_nat n) * pageHeight)%Q /\
  (n = 1 <-> (imgHeight canvas <= pageHeight)%Q).
Proof.
  cbv zeta. rewrite paginate_pages, length_map, length_seq.
  set (C := imgHeight canvas).
  assert (Hpos : (0 < C)%Q) by apply imgHeight_positive.
  assert (Hc : (0 < Qceiling (C / pageHeight))%Z).
  { pose proof (pages_step C Hpos). lia. }
  rewrite Z2Nat.id by lia.
  pose proof (Qceiling_lt (C / pageHeight)) as Hlo.
  pose proof (Qle_ceiling (C / pageHeight)) as Hhi.
  assert (Hlo' : (inject_Z (Qceiling (C / pageHeight) - 1) * pageHeight < C)%Q).
  { apply (Qmult_lt_r _ _ pageHeight) in Hlo; [|reflexivity].
    setoid_replace (C / pageHeight * pageHeight)%Q with C in Hlo
      by (unfold pageHeight; field).
    exact Hlo. }
  assert (Hhi' : (C <= inject_Z (Qceiling (C / pageHeight)) * pageHeight)%Q).
  { apply (Qmult_le_r _ _ pageHeight) in Hhi; [|reflexivity].
    setoid_replace (C / pageHeight * pageHeight)%Q with C in Hhi
      by (unfold pageHeight; field).
    exact Hhi. }
  split; [exact Hlo'|]. split; [exact Hhi'|].
  split.
  - intros Hn. assert (E : Qceiling (C / pageHeight) = 1%Z) by lia.
    rewrite E in Hhi'. rewrite Qmult_1_l in Hhi'. exact Hhi'.
  - intros Hle.
    assert (E : Qceiling (C / pageHeight) = 1%Z).
    { apply Qceiling_unique.
      - change (inject_Z (1 - 1)) with 0%Q. unfold pageHeight. apply Qlt_shift_div_l; lra.
      - change (inject_Z 1) with 1%Q. unfold pageHeight in *. apply Qle_shift_div_r; lra. }
    rewrite E. reflexivity.
Qed.

End WindowFacts.

(** * The paginator of the first revision *)

Module FirstRevisionFacts.

Import PaginationFacts.

Local Open Scope list_scope.

Lemma morePages_added canvas remainingHeight position pages :
  exists added,
    FirstRevision.morePages canvas remainingHeight position pages = pages ++ added /\
    length added = Z.to_nat (Qceiling (remainingHeight / pageHeight)) /\
    forall i, i < length added ->
      exists y,
        nth_error added i = Some (shifted canvas y) /\
        (y == position - inject_Z (Z.of_nat (S i)) * pageHeight)%Q.
Proof.
  funelim (FirstRevision.morePages canvas remainingHeight position pages).
  - destruct H as (added & Hrun & Hlen & Hoff).
    exists (shifted canvas (position - pageHeight) :: added).
    split; [rewrite Hrun, <- app_assoc; reflexivity|].
    split; [cbn [length]; rewrite Hlen; symmetry; apply pages_step; assumption|].
    intros [|i] Hi.
    + exists (position - pageHeight)%Q. split; [reflexivity|].
      change (inject_Z (Z.of_nat 1)) with 1%Q. ring.
    + cbn [length] in Hi. destruct (Hoff i) as (y & Hy & Ey); [lia|].
      exists y. split; [exact Hy|]. rewrite Ey.
      rewrite !Nat2Z.inj_succ. unfold Z.succ. rewrite !inject_Z_plus.
      change (inject_Z 1) with 1%Q. ring.
  - exists []. rewrite app_nil_r. split; [reflexivity|].
    split; [rewrite pages_stop by assumption; reflexivity|].
    intros i Hi. cbn in Hi. lia.
Qed.

(** X10: in the first revision of [convertClaudeToPdf], an image taller than
    one page gives ceil(C / 297) pages, but the page at index [i] holds the
    image at offset -((i + 1) * 297): the first page already starts one page
    height down, so the top of the image is on no page, and on the last page
    the image lies wholly above the page. An image of at most one page
    height gives the single page at offset 0. *)
Theorem first_revision_pages_shifted (canvas : Canvas) :
  let C := imgHeight canvas in
  let doc := FirstRevision.paginate canvas in
  ((C <= pageHeight)%Q -> doc = [shifted canvas 0]) /\
  ((pageHeight < C)%Q ->
   let n := Z.to_nat (Qceiling (C / pageHeight)) in
   length doc = n /\ 2 <= n /\
   (forall i, i < n ->
      exists y,
        nth_error doc i = Some (shifted canvas y) /\
        (y == - (inject_Z (Z.of_nat (S i)) * pageHeight))%Q) /\
   (C - inject_Z (Z.of_nat n) * pageHeight <= 0)%Q).
Proof.
  cbv zeta. unfold FirstRevision.paginate. change 297%Q with pageHeight.
  destruct (Qlt_le_dec pageHeight (imgHeight canvas)) as [Hlt|Hle].
  - split; [intros H; exfalso; exact (Qlt_not_le _ _ Hlt H)|]. intros _.
    destruct (morePages_added canvas (imgHeight canvas) 0 []) as (added & Hrun & Hlen & Hoff).
    rewrite Hrun. cbn [app]. rewrite Hlen.
    assert (Hpos : (0 < imgHeight canvas)%Q) by apply imgHeight_positive.
    assert (Hpos' : (0 < imgHeight canvas - pageHeight)%Q).
    { unfold pageHeight in *. lra. }
    pose proof (pages_step _ Hpos) as E1. pose proof (pages_step _ Hpos') as E2.
    split; [reflexivity|]. split; [lia|]. split.
    + intros i Hi. destruct (Hoff i) as (y & Hy & Ey); [lia|].
      exists y. split; [exact Hy|]. rewrite Ey. ring.
    + pose proof (Qle_ceiling (imgHeight canvas / pageHeight)) as Hhi.
      rewrite Z2Nat.id by lia.
      apply (Qmult_le_r _ _ pageHeight) in Hhi; [|reflexivity].
      setoid_replace (imgHeight canvas / pageHeight * pageHeight)%Q
        with (imgHeight canvas) in Hhi by (unfold pageHeight; field).
      lra.
  - split; [reflexivity|]. intros H. exfalso. exact (Qlt_not_le _ _ H Hle).
Qed.

(** A canvas two pages tall. *)
Lemma first_revision_pages_shifted_witness :
  length (FirstRevision.paginate {| width := 210; height := 594; toDataURL := "png" |}) = 2.
Proof.
  destruct (first_revision_pages_shifted {| width := 210; height := 594; toDataURL := "png" |})
    as (_ & H).
  destruct H as (Hlen & _); [reflexivity|]. rewrite Hlen. reflexivity.
Defined.

End FirstRevisionFacts.

(** * The components that call the validator and the pipeline *)

Module ComponentFacts.

Import PipelineFacts.

Local Open Scope list_scope.

(** X11: [handleConvert] of the PdfConverter component never rejects. On
    an input the validator refuses it only sets the error text: no toast, no
    request, no file, [isConverting] untouched. On an input the validator
    accepts it always ends with the start and completion toasts, no error
    text, [isConverting] false and exactly one file offered, named after the
    identifier: the "Conversion failed" branch is never taken, whatever the
    platform answers. *)
Theorem handleConvert_outcomes
    (parse : string -> option URL) (env : Env) (url : string)
    (st : PdfConverter.State) (w : World) :
  exists st' w',
    PdfConverter.handleConvert parse env url st w = (Normal tt, (st', w')) /\
    (validateClaudeURL parse url = Normal false ->
     st' = {| PdfConverter.error := Some PdfConverter.invalidUrlMessage;
              PdfConverter.isConverting := PdfConverter.isConverting st;
              PdfConverter.toasts := PdfConverter.toasts st |} /\
     w' = w) /\
    (validateClaudeURL parse url = Normal true ->
     PdfConverter.error st' = None /\
     PdfConverter.isConverting st' = false /\
     PdfConverter.toasts st'
     = PdfConverter.toasts st ++ [PdfConverter.startingToast; PdfConverter.completeToast] /\
     exists id d,
       extractShareId parse url = Normal (Some id) /\
       convertClaudeToPdf parse env url w = (Normal tt, w') /\
       downloads w' = downloads w ++ [(pdfName id, d)]).
Proof.
  unfold PdfConverter.handleConvert.
  destruct (ValidationFacts.validateClaudeURL_total parse url) as [[] Hv]; rewrite Hv.
  - pose proof Hv as Ha. apply ValidationFacts.validateClaudeURL_true in Ha as (u & id & Ha).
    pose proof (ValidationFacts.extractShareId_accepted parse _ _ _ Ha) as Hid.
    destruct (convertClaudeToPdf_run parse env url id w Hid)
      as (evs & _ & Hdl & _ & Hconv).
    pose proof (renderOutcome_downloads env id w evs Hdl) as Hd.
    assert (Hone : exists d w',
               convertClaudeToPdf parse env url w = (Normal tt, w') /\
               downloads w' = downloads w ++ [(pdfName id, d)]).
    { rewrite Hconv. destruct (renderOutcome env id w evs) as [[[]|e] w1].
      - destruct Hd as (canvas & Hd). eauto.
      - exists (fallbackDocument id). eexists. split; [reflexivity|].
        rewrite downloads_after, Hd. reflexivity. }
    destruct Hone as (d & w' & Hrun & Hdown). rewrite Hrun.
    do 2 eexists. split; [reflexivity|]. split; [discriminate|]. intros _.
    cbn [PdfConverter.error PdfConverter.isConverting PdfConverter.toasts
         PdfConverter.setIsConverting PdfConverter.toast PdfConverter.setError].
    rewrite <- app_assoc. repeat split. exists id, d. auto.
  - do 2 eexists. split; [reflexivity|]. split; [|discriminate].
    intros _. split; reflexivity.
Qed.

(** The recent list: bounded, without duplicates, newest first. *)
Lemma NoDup_firstn {A} n (l : list A) : NoDup l -> NoDup (firstn n l).
Proof.
  revert n. induction l as [|x l IH]; intros [|n] H; cbn; try constructor.
  - inversion H as [|? ? Hx Hl]; subst. intros Hin. apply Hx.
    rewrite <- (firstn_skipn n l). apply in_app_iff. left. exact Hin.
  - inversion H; subst. apply IH. assumption.
Qed.

Lemma includes_In l url : RecentConversions.includes l url = true <-> In url l.
Proof.
  unfold RecentConversions.includes. rewrite existsb_exists. split.
  - intros (x & Hx & E). apply String.eqb_eq in E. congruence.
  - intros H. exists url. split; [exact H | apply String.eqb_refl].
Qed.

(** X12: [handleConvert] of the earlier PdfConverter component keeps the
    recent list at most five long and free of duplicates, whatever the
    imported [simulateConversion] does. After a conversion that succeeded, a
    link that was not in the list is at its head, followed by the four most
    recent earlier ones; a link already in the list leaves it as it is. When
    the link is refused or the conversion throws, the list is unchanged. *)
Theorem handleConvert_recent_list
    (parse : string -> option URL) (simulateConversion : string -> M unit)
    (url : string) (st : RecentConversions.State) (w : World) :
  let recent := RecentConversions.recentUrls st in
  let run := RecentConversions.handleConvert parse simulateConversion url recent st w in
  let recent' := RecentConversions.recentUrls (fst (snd run)) in
  length recent <= 5 ->
  NoDup recent ->
  fst run = Normal tt /\
  length recent' <= 5 /\
  NoDup recent' /\
  (validateClaudeURL parse url = Normal true ->
   fst (simulateConversion url w) = Normal tt ->
   (~ In url recent -> recent' = url :: firstn 4 recent) /\
   (In url recent -> recent' = recent)) /\
  (validateClaudeURL parse url = Normal false \/
   (exists e, fst (simulateConversion url w) = Throws e) ->
   recent' = recent).
Proof.
  cbv zeta. intros Hlen Hnd. unfold RecentConversions.handleConvert.
  destruct (ValidationFacts.validateClaudeURL_total parse url) as [[] Hv]; rewrite Hv.
  - destruct (simulateConversion url w) as [[[]|e] w1]; cbn [fst snd].
    + destruct (RecentConversions.includes (RecentConversions.recentUrls st) url) eqn:Hin;
        cbn [negb fst snd RecentConversions.recentUrls RecentConversions.setIsConverting
             RecentConversions.toast RecentConversions.setRecentUrls].
      * apply includes_In in Hin.
        split; [reflexivity|]. split; [exact Hlen|]. split; [exact Hnd|].
        split; [intros _ _; split; [intros H; contradiction | reflexivity]|].
        intros [H|[e H]]; discriminate H.
      * assert (Hnot : ~ In url (RecentConversions.recentUrls st)).
        { intros H. apply includes_In in H. congruence. }
        unfold RecentConversions.pushRecent.
        split; [reflexivity|]. split; [apply firstn_le_length|].
        split; [apply NoDup_firstn; constructor; assumption|].
        split; [intros _ _; split; [reflexivity | intros H; contradiction]|].
        intros [H|[e H]]; discriminate H.
    + split; [reflexivity|]. split; [exact Hlen|]. split; [exact Hnd|].
      split; [intros _ H; discriminate H|]. reflexivity.
  - cbn [fst snd RecentConversions.recentUrls RecentConversions.toast].
    split; [reflexivity|]. split; [exact Hlen|]. split; [exact Hnd|].
    split; [intros H; discriminate H|]. reflexivity.
Qed.

(** A new link converted with the current pipeline while the list is full:
    it goes to the head and the oldest entry is dropped. *)
Lemma handleConvert_recent_list_witness :
  RecentConversions.recentUrls
    (fst (snd (RecentConversions.handleConvert PlainURL.parse
                 (simulateConversion PlainURL.parse offline)
                 sampleLink ["a"; "b"; "c"; "d"; "e"]%string
                 {| RecentConversions.isConverting := false;
                    RecentConversions.recentUrls := ["a"; "b"; "c"; "d"; "e"]%string;
                    RecentConversions.toasts := [] |} idle)))
  = [sampleLink; "a"; "b"; "c"; "d"]%string.
Proof.
  destruct (handleConvert_recent_list PlainURL.parse
              (simulateConversion PlainURL.parse offline) sampleLink
              {| RecentConversions.isConverting := false;
                 RecentConversions.recentUrls := ["a"; "b"; "c"; "d"; "e"]%string;
                 RecentConversions.toasts := [] |} idle)
    as (_ & _ & _ & Hok & _).
  - cbn. lia.
  - repeat constructor; cbn; intuition discriminate.
  - destruct Hok as [Hnew _]; [reflexivity | reflexivity |].
    apply Hnew. cbn. intuition discriminate.
Defined.

Lemma eqb_empty_truthy s : String.eqb s EmptyString = negb (JsString.truthy s).
Proof. destruct s; reflexivity. Qed.

(** X13: in the URLInput component neither [handleBlur] nor the value
    effect throws. The effect makes the error text consistent with any
    value, from any state. [handleBlur] keeps it consistent, shows the
    error for a value that is not blank and is refused, and never clears an
    error. *)
Theorem urlInput_error_consistent
    (parse : string -> option URL) (trim : string -> string)
    (value : string) (st : URLInput.State) :
  (exists st',
     URLInput.valueEffect parse trim value st = Normal st' /\
     consistent parse trim value st') /\
  (exists st',
     URLInput.handleBlur parse trim value st = Normal st' /\
     (consistent parse trim value st -> consistent parse trim value st') /\
     (JsString.truthy (trim value) = true ->
      validateClaudeURL parse value = Normal false ->
      URLInput.error st' = Some URLInput.errorMessage) /\
     (URLInput.shown st = true -> URLInput.shown st' = true)).
Proof.
  unfold consistent, URLInput.valueEffect, URLInput.handleBlur.
  rewrite eqb_empty_truthy.
  destruct (ValidationFacts.validateClaudeURL_total parse value) as [valid Hv]. rewrite Hv.
  cbn [cbind]. split.
  - destruct (JsString.truthy (trim value)) eqn:Ht; cbn [negb].
    + destruct (URLInput.shown st) eqn:Hs.
      * destruct valid; eexists; (split; [reflexivity|]).
        -- cbn. discriminate.
        -- intros _. auto.
      * eexists. split; [reflexivity|]. rewrite Hs. discriminate.
    + eexists. split; [reflexivity|]. cbn. discriminate.
  - destruct (JsString.truthy (trim value)) eqn:Ht.
    + destruct valid; cbn [negb]; eexists; (split; [reflexivity|]).
      * split; [|split]; [ | intros _ H; discriminate H | ]; cbn; auto.
      * split; [|split]; [intros _ _; auto | intros _ _; reflexivity | intros _; reflexivity].
    + eexists. split; [reflexivity|].
      split; [|split]; [ | intros H; discriminate H | ]; cbn; auto.
Qed.

End ComponentFacts.
